(** * tiles-shortest-path-planner: the two command-line entry points
      ([src/bin/TilePlanner.js], [src/bin/Cli.js]) and the routing engine
      they drive.

    The entry points are embedded from their source, statement by statement,
    as programs of a small trace-and-halt monad: every call that leaves the
    function (logger, [fetch], the file system, the engine, [console.log],
    [process.exit]) is an event of the trace, and the collaborators whose
    code is not part of the two files (Utils, undici, wellknown, fs, the
    engine classes) are fields of an environment record [Env].

    The engine classes themselves live in [lib/], which is not among the
    sources at hand; section 7 models them from the design document and
    says so at each definition.  Definitions come first (sections 1 to
    8), statements and proofs after (sections 9 to 12). *)

From Stdlib Require Import ZArith QArith Qabs List String Ascii Bool Lia.
From stdpp Require Import base option gmap strings list pretty.

Set Warnings "-register-all".
Local Open Scope Z_scope.

(* ================================================================== *)
(** * 1. JavaScript values                                              *)
(* ================================================================== *)

(** The values that flow through the two scripts: what [JSON.parse] and
    [Response.json] can return, plus [undefined].  An array carries its
    elements and the named properties assigned to it (the scripts assign
    [coordinates] to whatever the location service returned).  Finite
    numbers are rationals: the scripts never compute with them. *)
Inductive value :=
| VUndefined
| VNull
| VBool (b : bool)
| VNum (q : Q)
| VStr (s : string)
| VArr (elems : list value) (props : list (string * value))
| VObj (props : list (string * value)).

(** Errors thrown by the runtime itself or by a collaborator. *)
Inductive exn :=
| TypeError (msg : string)
| ExternalError (origin : string) (msg : string).

Definition result (A : Type) : Type := exn + A.

Definition lookupProp (k : string) (props : list (string * value)) : value :=
  match List.find (fun kv => String.eqb (fst kv) k) props with
  | Some kv => snd kv
  | None => VUndefined
  end.

Fixpoint assignProp (k : string) (x : value) (props : list (string * value))
  : list (string * value) :=
  match props with
  | [] => [(k, x)]
  | (k', y) :: rest =>
      if String.eqb k' k then (k, x) :: rest else (k', y) :: assignProp k x rest
  end.

(** [v.k] for a data property [k]. *)
Definition getProp (v : value) (k : string) : result value :=
  match v with
  | VUndefined =>
      inl (TypeError ("Cannot read properties of undefined (reading '" +:+ k +:+ "')"))
  | VNull =>
      inl (TypeError ("Cannot read properties of null (reading '" +:+ k +:+ "')"))
  | VObj props => inr (lookupProp k props)
  | VArr elems props =>
      if String.eqb k "length" then inr (VNum (inject_Z (Z.of_nat (List.length elems))))
      else inr (lookupProp k props)
  | VStr s =>
      if String.eqb k "length" then inr (VNum (inject_Z (Z.of_nat (String.length s))))
      else inr VUndefined
  | VBool _ | VNum _ => inr VUndefined
  end.

(** [v.k = x]; both scripts are ES modules, hence strict: assigning a
    property to a primitive throws. *)
Definition setProp (v : value) (k : string) (x : value) : result value :=
  match v with
  | VUndefined =>
      inl (TypeError ("Cannot set properties of undefined (setting '" +:+ k +:+ "')"))
  | VNull =>
      inl (TypeError ("Cannot set properties of null (setting '" +:+ k +:+ "')"))
  | VObj props => inr (VObj (assignProp k x props))
  | VArr elems props =>
      if String.eqb k "length"
      then inl (TypeError "Invalid array length")
      else inr (VArr elems (assignProp k x props))
  | VBool _ | VNum _ | VStr _ =>
      inl (TypeError ("Cannot create property '" +:+ k +:+ "' on a primitive value"))
  end.

(** [v[i]] for a literal index [i]. *)
Definition getIndex (v : value) (i : nat) : result value :=
  match v with
  | VUndefined =>
      inl (TypeError ("Cannot read properties of undefined (reading '" +:+ pretty i +:+ "')"))
  | VNull =>
      inl (TypeError ("Cannot read properties of null (reading '" +:+ pretty i +:+ "')"))
  | VArr elems _ => inr (nth i elems VUndefined)
  | VObj props => inr (lookupProp (pretty i) props)
  | VStr s =>
      match String.get i s with
      | Some c => inr (VStr (String c EmptyString))
      | None => inr VUndefined
      end
  | VBool _ | VNum _ => inr VUndefined
  end.

(** Truthiness, as tested by [if (shortestPath)]. *)
Definition truthy (v : value) : bool :=
  match v with
  | VUndefined | VNull => false
  | VBool b => b
  | VNum q => negb (Qeq_bool q 0)
  | VStr s => negb (String.eqb s EmptyString)
  | VArr _ _ | VObj _ => true
  end.

Fixpoint joinWith (sep : string) (l : list string) : string :=
  match l with
  | [] => EmptyString
  | [s] => s
  | s :: rest => s +:+ sep +:+ joinWith sep rest
  end.

Section ToString.
(** Number formatting is the runtime's. *)
Variable showNumber : Q -> string.

(** [`${v}`]: the string conversion of a template literal. *)
Fixpoint toString (v : value) : string :=
  match v with
  | VUndefined => "undefined"
  | VNull => "null"
  | VBool true => "true"
  | VBool false => "false"
  | VNum q => showNumber q
  | VStr s => s
  | VArr elems _ =>
      joinWith ","
        (List.map (fun x => match x with
                            | VUndefined | VNull => EmptyString
                            | _ => toString x
                            end) elems)
  | VObj _ => "[object Object]"
  end.
End ToString.

(* ================================================================== *)
(** * 2. String helpers of the scripts                                  *)
(* ================================================================== *)

(** [s.endsWith(suffix)] *)
Definition endsWith (s suffix : string) : bool :=
  (String.length suffix <=? String.length s)%nat &&
  String.eqb (substring (String.length s - String.length suffix)
                        (String.length suffix) s) suffix.

(** [s.substring(0, s.length - 1)] *)
Definition dropLast (s : string) : string :=
  substring 0 (String.length s - 1) s.

(** The base URL both scripts derive from [--tiles]
    (TilePlanner.js 20-22, Cli.js 22-24). *)
Definition tilesBase (tiles : string) : string :=
  if endsWith tiles "/" then dropLast tiles else tiles.

Definition hexDigit (n : N) : ascii :=
  match n with
  | 0 => "0" | 1 => "1" | 2 => "2" | 3 => "3" | 4 => "4" | 5 => "5"
  | 6 => "6" | 7 => "7" | 8 => "8" | 9 => "9" | 10 => "A" | 11 => "B"
  | 12 => "C" | 13 => "D" | 14 => "E" | _ => "F"
  end%N%char.

(** Characters [encodeURIComponent] leaves alone:
    [A-Z a-z 0-9 - _ . ! ~ * ' ( )]. *)
Definition uriUnreserved (c : ascii) : bool :=
  let n := N_of_ascii c in
  ((65 <=? n) && (n <=? 90) || (97 <=? n) && (n <=? 122) || (48 <=? n) && (n <=? 57)
   || (n =? 45) || (n =? 95) || (n =? 46) || (n =? 33) || (n =? 126)
   || (n =? 42) || (n =? 39) || (n =? 40) || (n =? 41))%N.

(** [encodeURIComponent] on a string held as its UTF-8 bytes: every byte
    that is not unreserved becomes [%XX]. *)
Fixpoint encodeURIComponent (s : string) : string :=
  match s with
  | EmptyString => EmptyString
  | String c rest =>
      if uriUnreserved c then String c (encodeURIComponent rest)
      else
        let n := N_of_ascii c in
        String "%" (String (hexDigit (n / 16)) (String (hexDigit (n mod 16))
          (encodeURIComponent rest)))
  end.

(* ================================================================== *)
(** * 3. Effects: traces, halting, the environment                      *)
(* ================================================================== *)

Inductive level := Debug | Info | Error.

Inductive logmsg :=
| LogText (s : string)
| LogExn (e : exn).

(** The three engine classes exported by [lib/index.js]. *)
Inductive EngineClass := Dijkstra | AStar | NBAStar.

(** The function values the scripts hand to an engine: a member of the
    [Utils] object, or the arrow function [(node) => { return node.<f> }]. *)
Inductive fnref :=
| FnUtils (member : string)
| FnField (field : string).

(** The object literal passed to an engine constructor.  [NG] is always a
    fresh [new NetworkGraph()], [logger] is the script's logger; the
    remaining fields vary. *)
Record EngineCfg := {
  cfg_zoom : string;
  cfg_tilesBaseURL : string;
  cfg_distance : fnref;
  cfg_heuristic : option fnref
}.

Inductive event :=
| ELog (lvl : level) (msg : logmsg)
| EFetch (url : string)
| EReadFile (path : string)
| ENewNetworkGraph
| ENew (cls : EngineClass) (cfg : EngineCfg)
| ELoadTileQuadTree (cls : EngineClass) (threshold : option string)
| EFindPath (cls : EngineClass) (cfg : EngineCfg) (FROM TO : value)
| EConsoleLog (args : list value).

(** How a run can stop early: [process.exit()], or an exception nobody
    catches (the rejected promise of [run()]). *)
Inductive halt :=
| Exit
| Throw (e : exn).

(** What the two files import and do not define. *)
Record Env := {
  (** [Utils.isValidHttpUrl] *)
  Utils_isValidHttpUrl : string -> bool;
  (** [Utils.<member>(...args)], for the members passed around as functions *)
  Utils_call : string -> list value -> result value;
  (** undici's [fetch]: the body of the response, or a rejection *)
  fetch : string -> result string;
  (** [Response.json] and [JSON.parse] *)
  JSON_parse : string -> result value;
  JSON_stringify : value -> string;
  (** [path.resolve] and [fsPromise.readFile] *)
  path_resolve : string -> string;
  readFile : string -> result string;
  (** wellknown's [parse] *)
  wktParse : value -> result value;
  (** number formatting inside template literals *)
  showNumber : Q -> string;
  (** [engine.loadTileQuadTree(threshold)] *)
  engine_loadTileQuadTree : EngineClass -> EngineCfg -> option string -> result unit;
  (** [engine.findPath(FROM, TO)]; the third argument is the threshold of
      the preceding [loadTileQuadTree] call, if there was one *)
  engine_findPath :
    EngineClass -> EngineCfg -> option (option string) -> value -> value -> result value
}.

(** A computation: the events it emitted, then a value or a halt. *)
Definition M (A : Type) : Type := (list event * (halt + A))%type.

Definition trace {A} (m : M A) : list event := fst m.
Definition outcome {A} (m : M A) : halt + A := snd m.

#[global] Instance M_ret : MRet M := fun A a => ([], inr a).
#[global] Instance M_bind : MBind M := fun A B f m =>
  match m with
  | (t, inl h) => (t, inl h)
  | (t, inr a) => (t ++ fst (f a), snd (f a))
  end.

Definition emit (e : event) : M unit := ([e], inr tt).
Definition exit {A} : M A := ([], inl Exit).
Definition throw {A} (e : exn) : M A := ([], inl (Throw e)).

Definition lift {A} (r : result A) : M A :=
  match r with
  | inl e => throw e
  | inr a => mret a
  end.

(** [try { m } catch (err) { h err }] *)
Definition tryCatch {A} (m : M A) (h : exn -> M A) : M A :=
  match m with
  | (t, inl (Throw e)) => (t ++ fst (h e), snd (h e))
  | _ => m
  end.

(** Calling a function value. *)
Definition applyFn (E : Env) (f : fnref) (args : list value) : result value :=
  match f with
  | FnUtils member => Utils_call E member args
  | FnField field => getProp (hd VUndefined args) field
  end.

(** [X.coordinates = wktParse(X.wkt).coordinates]
    (TilePlanner.js 46-47, Cli.js 56-57).  The right-hand side is
    evaluated before the store. *)
Definition withCoordinates (E : Env) (X : value) : M value :=
  wkt ← lift (getProp X "wkt");
  geometry ← lift (wktParse E wkt);
  coordinates ← lift (getProp geometry "coordinates");
  lift (setProp X "coordinates" coordinates).

(** [fetch(url)] awaited: the request is issued, then the body or the
    rejection comes back. *)
Definition fetchBody (E : Env) (url : string) : M string :=
  emit (EFetch url);; lift (fetch E url).

(** [await Promise.all([(await fetch(u1)).json(), (await fetch(u2)).json()])]:
    the first response is awaited before the second request is issued; the
    two bodies are then decoded. *)
Definition fetchLocations (E : Env) (u1 u2 : string) : M (value * value) :=
  b1 ← fetchBody E u1;
  b2 ← fetchBody E u2;
  v1 ← lift (JSON_parse E b1);
  v2 ← lift (JSON_parse E b2);
  mret (v1, v2).

(* ================================================================== *)
(** * 4. src/bin/TilePlanner.js                                         *)
(* ================================================================== *)

Module TilePlanner.

(** The command line as commander sees it: four required options, and
    the optional ones as given or not. *)
Record Args := {
  arg_from : string;
  arg_to : string;
  arg_zoom : string;
  arg_tiles : string;
  arg_threshold : option string;
  arg_algorithm : option string;
  arg_nodeWeighted : bool;
  arg_debug : bool
}.

(** [program.opts()] *)
Record Opts := {
  from : string;
  to : string;
  zoom : string;
  tiles : string;
  threshold : option string;
  algorithm : string;
  nodeWeighted : bool;
  debug : bool
}.

(** Lines 8-17: [--algorithm] defaults to ["NBA*"], [--node-weighted]
    to [false]. *)
Definition parse (a : Args) : Opts :=
  {| from := arg_from a;
     to := arg_to a;
     zoom := arg_zoom a;
     tiles := arg_tiles a;
     threshold := arg_threshold a;
     algorithm := default "NBA*" (arg_algorithm a);
     nodeWeighted := arg_nodeWeighted a;
     debug := arg_debug a |}.

(** Line 44. *)
Definition distance (o : Opts) : fnref :=
  if nodeWeighted o then FnField "cost" else FnUtils "haversineDistance".

(** Lines 52-81: the [switch] over the algorithm name; it has no
    [default], so [tilePlanner] stays [null] for any other name. *)
Definition selectEngine (o : Opts) (base : string) : option (EngineClass * EngineCfg) :=
  if String.eqb (algorithm o) "Dijkstra" then
    Some (Dijkstra, {| cfg_zoom := zoom o; cfg_tilesBaseURL := base;
                       cfg_distance := distance o; cfg_heuristic := None |})
  else if String.eqb (algorithm o) "A*" then
    Some (AStar, {| cfg_zoom := zoom o; cfg_tilesBaseURL := base;
                    cfg_distance := distance o;
                    cfg_heuristic := Some (FnUtils "haversineDistance") |})
  else if String.eqb (algorithm o) "NBA*" then
    Some (NBAStar, {| cfg_zoom := zoom o; cfg_tilesBaseURL := base;
                      cfg_distance := distance o;
                      cfg_heuristic := Some (FnUtils "haversineDistance") |})
  else None.

(** Lines 91-94: the body of the [forEach] callback, for element [p] at
    index [i]; it yields the two strings pushed. *)
Definition describeStep (E : Env) (i : nat) (p : value) : result (string * string) :=
  match getProp p "id" with
  | inl e => inl e
  | inr id =>
      match getProp p "coordinates" with
      | inl e => inl e
      | inr c =>
          match getIndex c 0, getIndex c 1 with
          | inl e, _ => inl e
          | _, inl e => inl e
          | inr c0, inr c1 =>
              inr (pretty (i + 1)%nat +:+ ". " +:+ toString (showNumber E) id,
                   toString (showNumber E) c0 +:+ " " +:+ toString (showNumber E) c1)
          end
      end
  end.

Fixpoint describeFrom (E : Env) (i : nat) (ps : list value)
  : result (list string * list string) :=
  match ps with
  | [] => inr ([], [])
  | p :: rest =>
      match describeStep E i p with
      | inl e => inl e
      | inr (a, b) =>
          match describeFrom E (S i) rest with
          | inl e => inl e
          | inr (path, linestring) => inr (a :: path, b :: linestring)
          end
      end
  end.

(** [shortestPath.path.forEach(...)], lines 89-94. *)
Definition describePath (E : Env) (shortestPath : value)
  : result (list string * list string) :=
  match getProp shortestPath "path" with
  | inl e => inl e
  | inr (VArr elems _) => describeFrom E 0 elems
  | inr VUndefined =>
      inl (TypeError "Cannot read properties of undefined (reading 'forEach')")
  | inr VNull =>
      inl (TypeError "Cannot read properties of null (reading 'forEach')")
  | inr _ => inl (TypeError "shortestPath.path.forEach is not a function")
  end.

(** Lines 88-100. *)
Definition report (E : Env) (shortestPath : value) : M unit :=
  if truthy shortestPath then
    '(path, linestring) ← lift (describePath E shortestPath);
    emit (EConsoleLog [VStr "SHORTEST PATH found: ";
                       VStr (JSON_stringify E (VArr (List.map VStr path) []))]);;
    emit (EConsoleLog [VStr ("LINESTRING(" +:+ joinWith "," linestring +:+ ")")]);;
    metadata ← lift (getProp shortestPath "metadata");
    emit (EConsoleLog [VStr "SHORTEST PATH metadata: "; metadata])
  else
    emit (EConsoleLog [VStr "No path was found :("]).

(** The whole of [run()]. *)
Definition run (E : Env) (argv : Args) : M unit :=
  let o := parse argv in
  let base := tilesBase (tiles o) in
  (* 26-30 *)
  (if Utils_isValidHttpUrl E (tiles o) then mret tt
   else
     emit (ELog Error
             (LogText ("Tile interface " +:+ tiles o +:+ " is not a valid HTTP URL")));;
     exit);;
  (* 32-39 *)
  emit (ELog Debug (LogText "Resolving locations from location API"));;
  '(FROM, TO) ← fetchLocations E
      (base +:+ "/location?id=" +:+ encodeURIComponent (from o))
      (base +:+ "/location?id=" +:+ encodeURIComponent (to o));
  (* 46-48 *)
  FROM ← withCoordinates E FROM;
  TO ← withCoordinates E TO;
  fromLabel ← lift (getProp FROM "label");
  toLabel ← lift (getProp TO "label");
  emit (ELog Info
          (LogText ("Calculating route from " +:+ toString (showNumber E) fromLabel
                    +:+ " to " +:+ toString (showNumber E) toLabel
                    +:+ " using " +:+ algorithm o +:+ " algorithm")));;
  (* 50-81 *)
  emit ENewNetworkGraph;;
  let tilePlanner := selectEngine o base in
  match tilePlanner with
  | Some (cls, cfg) => emit (ENew cls cfg)
  | None => mret tt
  end;;
  (* 83-87 *)
  match tilePlanner with
  | None =>
      throw (TypeError "Cannot read properties of null (reading 'loadTileQuadTree')")
  | Some (cls, cfg) =>
      emit (ELoadTileQuadTree cls (threshold o));;
      lift (engine_loadTileQuadTree E cls cfg (threshold o));;
      emit (EFindPath cls cfg FROM TO);;
      shortestPath ← lift (engine_findPath E cls cfg (Some (threshold o)) FROM TO);
      (* 88-100 *)
      report E shortestPath
  end.

End TilePlanner.

(* ================================================================== *)
(** * 5. src/bin/Cli.js                                                 *)
(* ================================================================== *)

Module Cli.

Record Args := {
  arg_from : string;
  arg_to : string;
  arg_zoom : string;
  arg_tiles : string;
  arg_algorithm : option string;
  arg_index : option string;
  arg_debug : bool
}.

(** [program.opts()] *)
Record Opts := {
  from : string;
  to : string;
  zoom : string;
  tiles : string;
  algorithm : string;
  index : option string;
  debug : bool
}.

(** Lines 11-19: [--algorithm] defaults to ["NBA*"]. *)
Definition parse (a : Args) : Opts :=
  {| from := arg_from a;
     to := arg_to a;
     zoom := arg_zoom a;
     tiles := arg_tiles a;
     algorithm := default "NBA*" (arg_algorithm a);
     index := arg_index a;
     debug := arg_debug a |}.

(** One element of the iterable given to [new Map(...)]: it must be an
    object, and its properties [0] and [1] are the key and the value. *)
Definition entryOf (x : value) : result (value * value) :=
  match x with
  | VArr elems _ => inr (nth 0 elems VUndefined, nth 1 elems VUndefined)
  | VObj props => inr (lookupProp "0" props, lookupProp "1" props)
  | _ => inl (TypeError "Iterator value is not an entry object")
  end.

Fixpoint entriesOf (xs : list value) : result (list (value * value)) :=
  match xs with
  | [] => inr []
  | x :: rest =>
      match entryOf x with
      | inl e => inl e
      | inr kv =>
          match entriesOf rest with
          | inl e => inl e
          | inr kvs => inr (kv :: kvs)
          end
      end
  end.

(** [new Map(v)] for a value [v] that came out of [JSON.parse]: [null]
    gives the empty map, an array is read entry by entry, a string is
    iterated character by character (and no character is an entry
    object), anything else is not iterable. *)
Definition newMap (v : value) : result (list (value * value)) :=
  match v with
  | VUndefined | VNull => inr []
  | VArr elems _ => entriesOf elems
  | VStr EmptyString => inr []
  | VStr _ => inl (TypeError "Iterator value is not an entry object")
  | VBool _ | VNum _ | VObj _ => inl (TypeError "object is not iterable")
  end.

(** [index.get(k)] for a string [k]: the value of the last entry whose
    key is that string, [undefined] when there is none. *)
Definition mapGet (entries : list (value * value)) (k : string) : value :=
  fold_left (fun acc kv =>
               match fst kv with
               | VStr s => if String.eqb s k then snd kv else acc
               | _ => acc
               end) entries VUndefined.

(** Lines 36-45: resolution from the local index file. *)
Definition resolveLocal (E : Env) (o : Opts) (file : string) : M (value * value) :=
  emit (ELog Debug (LogText "Resolving locations from local index file"));;
  tryCatch
    (emit (EReadFile (path_resolve E file));;
     text ← lift (readFile E (path_resolve E file));
     parsed ← lift (JSON_parse E text);
     index ← lift (newMap parsed);
     mret (mapGet index (from o), mapGet index (to o)))
    (fun err => emit (ELog Error (LogExn err));; exit).

(** Lines 46-54: resolution through the location service. *)
Definition resolveRemote (E : Env) (o : Opts) (base : string) : M (value * value) :=
  emit (ELog Debug (LogText "Resolving locations from location API"));;
  fetchLocations E
    (base +:+ "/location/" +:+ encodeURIComponent (from o))
    (base +:+ "/location/" +:+ encodeURIComponent (to o)).

(** [if (program.opts().index)]: an option that was not given, or given
    as the empty string, is falsy. *)
Definition resolve (E : Env) (o : Opts) (base : string) : M (value * value) :=
  match index o with
  | None | Some EmptyString => resolveRemote E o base
  | Some file => resolveLocal E o file
  end.

(** Lines 61-83: the [switch]; its [default] branch is [process.exit()]. *)
Definition selectEngine (o : Opts) (base : string) : option (EngineClass * EngineCfg) :=
  if String.eqb (algorithm o) "Dijkstra" then
    Some (Dijkstra, {| cfg_zoom := zoom o; cfg_tilesBaseURL := base;
                       cfg_distance := FnField "length"; cfg_heuristic := None |})
  else if String.eqb (algorithm o) "A*" then
    Some (AStar, {| cfg_zoom := zoom o; cfg_tilesBaseURL := base;
                    cfg_distance := FnField "length";
                    cfg_heuristic := Some (FnUtils "harvesineDistance") |})
  else None.

(** The callback of [path.map], line 87. *)
Definition describeStep (E : Env) (i : nat) (p : value) : result value :=
  match getProp p "id" with
  | inl e => inl e
  | inr id => inr (VStr (pretty (i + 1)%nat +:+ ". " +:+ toString (showNumber E) id))
  end.

Fixpoint describeFrom (E : Env) (i : nat) (ps : list value) : result (list value) :=
  match ps with
  | [] => inr []
  | p :: rest =>
      match describeStep E i p with
      | inl e => inl e
      | inr a =>
          match describeFrom E (S i) rest with
          | inl e => inl e
          | inr l => inr (a :: l)
          end
      end
  end.

(** [path.map(...)], line 87: only an array has [map]. *)
Definition describePath (E : Env) (path : value) : result value :=
  match path with
  | VArr elems _ =>
      match describeFrom E 0 elems with
      | inl e => inl e
      | inr l => inr (VArr l [])
      end
  | VUndefined => inl (TypeError "Cannot read properties of undefined (reading 'map')")
  | VNull => inl (TypeError "Cannot read properties of null (reading 'map')")
  | _ => inl (TypeError "path.map is not a function")
  end.

(** The whole of [run()]. *)
Definition run (E : Env) (argv : Args) : M unit :=
  let o := parse argv in
  let base := tilesBase (tiles o) in
  (* 29-33 *)
  (if Utils_isValidHttpUrl E (tiles o) then mret tt
   else
     emit (ELog Error
             (LogText ("Tile interface " +:+ tiles o +:+ " is not a valid HTTP URL")));;
     exit);;
  (* 35-54 *)
  '(FROM, TO) ← resolve E o base;
  (* 56-58 *)
  FROM ← withCoordinates E FROM;
  TO ← withCoordinates E TO;
  fromLabel ← lift (getProp FROM "label");
  toLabel ← lift (getProp TO "label");
  emit (ELog Info
          (LogText ("Calculating route from " +:+ toString (showNumber E) fromLabel
                    +:+ " to " +:+ toString (showNumber E) toLabel
                    +:+ " using " +:+ algorithm o +:+ " algorithm")));;
  (* 61-83 *)
  match selectEngine o base with
  | None => exit
  | Some (cls, cfg) =>
      emit ENewNetworkGraph;;
      emit (ENew cls cfg);;
      (* 85-87 *)
      emit (EFindPath cls cfg FROM TO);;
      path ← lift (engine_findPath E cls cfg None FROM TO);
      lines ← lift (describePath E path);
      emit (EConsoleLog [lines])
  end.

End Cli.

(* ================================================================== *)
(** * 6. Sample collaborators and command lines                         *)
(* ================================================================== *)

(** A location record as the location service and the index file hold it:
    [{id, label, wkt}], here for a point on the equator. *)
Definition sampleLocation (id : string) (lon : nat) : value :=
  VObj [("id", VStr id); ("label", VStr ("Stop " +:+ id));
        ("wkt", VStr ("POINT(" +:+ pretty lon +:+ " 0)"))].

(** wellknown's [parse] on the sample geometries: a GeoJSON point for the
    two well-formed strings, [null] for any other string, and a
    [TypeError] when the argument is not a string at all (it calls
    [input.split]). *)
Definition sample_wktParse (v : value) : result value :=
  match v with
  | VStr s =>
      if String.eqb s "POINT(0 0)" then
        inr (VObj [("type", VStr "Point"); ("coordinates", VArr [VNum 0; VNum 0] [])])
      else if String.eqb s "POINT(3 0)" then
        inr (VObj [("type", VStr "Point"); ("coordinates", VArr [VNum 3; VNum 0] [])])
      else inr VNull
  | _ => inl (TypeError "input.split is not a function")
  end.

(** The sample server answers a location request for [A] and for [B];
    the sample index file lists the same two stops. *)
Definition sample_JSON_parse (text : string) : result value :=
  if endsWith text "A" then inr (sampleLocation "A" 0)
  else if endsWith text "B" then inr (sampleLocation "B" 3)
  else if String.eqb text "index.json" then
    inr (VArr [VArr [VStr "A"; sampleLocation "A" 0] [];
               VArr [VStr "B"; sampleLocation "B" 3] []] [])
  else inl (ExternalError "JSON" "Unexpected token").

(** Great-circle distance between two points of the equator, in degrees
    of arc: the difference of the longitudes. *)
Definition sample_haversine (args : list value) : result value :=
  match args with
  | VObj pa :: VObj pb :: _ =>
      match lookupProp "coordinates" pa, lookupProp "coordinates" pb with
      | VArr [VNum x; VNum _] _, VArr [VNum y; VNum _] _ => inr (VNum (Qabs (x - y)))
      | _, _ => inl (TypeError "Cannot read properties of undefined (reading '0')")
      end
  | _ => inl (TypeError "Cannot read properties of undefined (reading 'coordinates')")
  end.

(** An environment whose engine answers every query with [answer]. *)
Definition sampleEnv (answer : result value) : Env :=
  {| Utils_isValidHttpUrl := fun s => String.prefix "http://" s || String.prefix "https://" s;
     Utils_call := fun member args =>
       if String.eqb member "haversineDistance" then sample_haversine args
       else inl (TypeError ("Utils." +:+ member +:+ " is not a function"));
     fetch := fun url => inr url;
     JSON_parse := sample_JSON_parse;
     JSON_stringify := fun v => "[...]";
     path_resolve := fun p => p;
     readFile := fun p =>
       if String.eqb p "index.json" then inr "index.json"
       else inl (ExternalError "fs" "ENOENT");
     wktParse := sample_wktParse;
     showNumber := fun q => pretty (Z.to_nat (Qnum q / Zpos (Qden q)));
     engine_loadTileQuadTree := fun _ _ _ => inr tt;
     engine_findPath := fun _ _ _ _ _ => answer |}.

(** A [PathResult] from [A] to [B]. *)
Definition samplePathResult : value :=
  VObj [("path", VArr [VObj [("id", VStr "A"); ("coordinates", VArr [VNum 0; VNum 0] [])];
                       VObj [("id", VStr "B"); ("coordinates", VArr [VNum 3; VNum 0] [])]] []);
        ("metadata", VObj [("cost", VNum 3)])].

Definition sampleTilePlannerArgs (tiles : string) (algorithm : option string)
    (nodeWeighted : bool) : TilePlanner.Args :=
  {| TilePlanner.arg_from := "A"; TilePlanner.arg_to := "B";
     TilePlanner.arg_zoom := "14"; TilePlanner.arg_tiles := tiles;
     TilePlanner.arg_threshold := None; TilePlanner.arg_algorithm := algorithm;
     TilePlanner.arg_nodeWeighted := nodeWeighted; TilePlanner.arg_debug := false |}.

Definition sampleCliArgs (from : string) (algorithm : option string)
    (index : option string) : Cli.Args :=
  {| Cli.arg_from := from; Cli.arg_to := "B";
     Cli.arg_zoom := "14"; Cli.arg_tiles := "http://tiles.example/";
     Cli.arg_algorithm := algorithm; Cli.arg_index := index;
     Cli.arg_debug := false |}.

(* ================================================================== *)
(** * 7. The routing engine                                             *)
(* ================================================================== *)

(** The engine classes ([lib/]) are not among the sources; everything in
    this module is modelled from the design document, section by section.
    Costs are exact integers (a fixed unit of length) and coordinates are
    integers (a fixed fraction of a degree): rounding is not modelled.
    [PathResult]'s elapsed time is left out for the same reason. *)
Module Engine.

(** Modelled from the spec: node ids are opaque strings; a coordinate is
    (longitude, latitude); a tile key is (zoom, x, y) (section 3). *)
Abbreviation NodeId := string (only parsing).
Abbreviation Coord := (Z * Z)%type (only parsing).
Abbreviation TileKey := (nat * Z * Z)%type (only parsing).

(** Modelled from the spec: the Node of the data model (section 3):
    identifier, (longitude, latitude), optional intrinsic cost. *)
Record Node := {
  id : NodeId;
  coordinates : Coord;
  cost : option Z
}.

(** Modelled from the spec: the payload of one tile (section 6): nodes
    [{id, coordinates, cost?}] and edges [{source, target}]. *)
Record Tile := {
  tile_nodes : list Node;
  tile_edges : list (NodeId * NodeId)
}.

(** Modelled from the spec: the answer of the tile service: a decodable
    payload, a network failure or non-success status, or a payload that
    cannot be decoded (section 4.2). *)
Inductive TileResponse :=
| TileOk (t : Tile)
| TileUnavailable
| TileMalformed.

(** Modelled from the spec: the two tile failures of the error taxonomy
    (section 7), each with the tile it concerns. *)
Inductive EngineError :=
| TileFetchError (k : TileKey)
| TileDecodeError (k : TileKey).

(** Modelled from the spec: what an engine is constructed with (section
    6: [{graph, zoom, tilesBaseURL, distanceFn, heuristicFn?, logger}]).
    The tile service behind [tilesBaseURL] is the function [tileSource];
    [tileCount] is its summary query used by the quadtree; [tileOf] is
    the geographic-to-tile mapping; [distance source target] is the cost
    of the edge between two nodes (section 4.4). *)
Record Config := {
  zoom : nat;
  maxZoom : nat;
  rootTile : TileKey;
  tileSource : TileKey -> TileResponse;
  tileCount : TileKey -> nat;
  tileOf : nat -> Coord -> Z * Z;
  distance : Node -> Node -> Z;
  heuristic : Node -> Node -> Z
}.

(** ** NetworkGraph (section 4.1) *)

(** Modelled from the spec: the graph store: the node container and the
    adjacency of the directed edges, kept in both directions because the
    backward frontier of NBA* follows reverse edges. *)
Record NetworkGraph := {
  nodes : gmap string Node;
  succs : gmap string (list string);
  preds : gmap string (list string)
}.

(** Modelled from the spec: each run builds a fresh in-memory graph
    (section 1). *)
Definition emptyGraph : NetworkGraph :=
  {| nodes := ∅; succs := ∅; preds := ∅ |}.

(** Modelled from the spec: [getNode(nodeId) -> Node or absent]. *)
Definition getNode (g : NetworkGraph) (i : NodeId) : option Node := nodes g !! i.

(** Modelled from the spec: insertion merges without overwriting an
    existing entry with the same id. *)
Definition insertNode (g : NetworkGraph) (n : Node) : NetworkGraph :=
  match nodes g !! id n with
  | Some _ => g
  | None => {| nodes := <[id n := n]> (nodes g); succs := succs g; preds := preds g |}
  end.

(** Modelled from the spec: [insertNodes(nodes)]. *)
Definition insertNodes (ns : list Node) (g : NetworkGraph) : NetworkGraph :=
  fold_left insertNode ns g.

(** Modelled from the spec: adjacency lookup; a node without edges has
    the empty adjacency. *)
Definition adjacent (m : gmap string (list string)) (i : NodeId) : list string :=
  default [] (m !! i).

(** Modelled from the spec: an edge is an ordered pair of node ids; a
    pair already present is not inserted again. *)
Definition insertEdge (g : NetworkGraph) (e : NodeId * NodeId) : NetworkGraph :=
  let '(s, t) := e in
  if bool_decide (t ∈ adjacent (succs g) s) then g
  else {| nodes := nodes g;
          succs := <[s := adjacent (succs g) s ++ [t]]> (succs g);
          preds := <[t := adjacent (preds g) t ++ [s]]> (preds g) |}.

(** Modelled from the spec: [insertEdges(edges)]. *)
Definition insertEdges (es : list (NodeId * NodeId)) (g : NetworkGraph) : NetworkGraph :=
  fold_left insertEdge es g.

(** ** TileCache and TileSource (section 4.2) *)

(** Modelled from the spec: the graph, the set of tile keys already
    resolved, and the number of fetches issued. *)
Record Store := {
  graph : NetworkGraph;
  cache : gset (nat * Z * Z);
  fetched : nat
}.

(** Modelled from the spec: graph and cache are created fresh per query
    (section 3, lifecycle). *)
Definition emptyStore : Store := {| graph := emptyGraph; cache := ∅; fetched := 0 |}.

(** Modelled from the spec: [ensureTileLoaded]: a cached tile costs
    nothing; otherwise the tile is fetched, decoded, merged and marked;
    a failed fetch or decode is surfaced. *)
Definition ensureTileLoaded (cfg : Config) (k : TileKey) (st : Store)
  : EngineError + Store :=
  if bool_decide (k ∈ cache st) then inr st
  else match tileSource cfg k with
       | TileOk t =>
           inr {| graph := insertEdges (tile_edges t) (insertNodes (tile_nodes t) (graph st));
                  cache := {[k]} ∪ cache st;
                  fetched := S (fetched st) |}
       | TileUnavailable => inl (TileFetchError k)
       | TileMalformed => inl (TileDecodeError k)
       end.

(** Modelled from the spec: several tiles, one after the other; the
    first failure is the one surfaced. *)
Fixpoint ensureTilesLoaded (cfg : Config) (ks : list TileKey) (st : Store)
  : EngineError + Store :=
  match ks with
  | [] => inr st
  | k :: rest =>
      match ensureTileLoaded cfg k st with
      | inl e => inl e
      | inr st' => ensureTilesLoaded cfg rest st'
      end
  end.

(** ** SpatialQuadTree (sections 3 and 4.3) *)

(** Modelled from the spec: a QuadTreeNode: its region (a tile), its node
    count, and either four children or a leaf marker. *)
Inductive QuadTree :=
| Leaf (region : TileKey) (count : nat)
| Quad (region : TileKey) (count : nat) (nw ne sw se : QuadTree).

(** Modelled from the spec: the zoom of a tile key. *)
Definition zoomOf (k : TileKey) : nat := fst (fst k).

(** Modelled from the spec: the four quadrants of a region are the four
    tiles it splits into one zoom level down. *)
Definition quadrant (k : TileKey) (dx dy : Z) : TileKey :=
  let '(z, x, y) := k in (S z, 2 * x + dx, 2 * y + dy).

(** Modelled from the spec: a region is subdivided into its four
    quadrants whenever its node count exceeds the threshold, until the
    threshold is satisfied or the maximum zoom is hit; [depth] is the
    number of zoom levels left below the region. *)
Fixpoint subdivide (count : TileKey -> nat) (threshold : nat) (depth : nat)
    (k : TileKey) : QuadTree :=
  match depth with
  | O => Leaf k (count k)
  | S d =>
      if (count k <=? threshold)%nat then Leaf k (count k)
      else Quad k (count k)
             (subdivide count threshold d (quadrant k 0 0))
             (subdivide count threshold d (quadrant k 1 0))
             (subdivide count threshold d (quadrant k 0 1))
             (subdivide count threshold d (quadrant k 1 1))
  end.

(** Modelled from the spec: [loadTileQuadTree(threshold)]: the index is
    built only if a threshold is supplied. *)
Definition loadTileQuadTree (cfg : Config) (threshold : option nat) : option QuadTree :=
  match threshold with
  | None => None
  | Some th =>
      Some (subdivide (tileCount cfg) th (maxZoom cfg - zoomOf (rootTile cfg)) (rootTile cfg))
  end.

(** Modelled from the spec: the leaves of the index, each with its node
    count. *)
Fixpoint leaves (t : QuadTree) : list (TileKey * nat) :=
  match t with
  | Leaf k n => [(k, n)]
  | Quad _ _ a b c d => leaves a ++ leaves b ++ leaves c ++ leaves d
  end.

(** Modelled from the spec: whether a coordinate falls into a tile,
    through the geographic-to-tile mapping (section 4.2). *)
Definition covers (cfg : Config) (c : Coord) (k : TileKey) : bool :=
  let '(z, x, y) := k in
  let '(cx, cy) := tileOf cfg z c in
  (cx =? x) && (cy =? y).

(** Modelled from the spec: the index determines, per region, the zoom
    to fetch at: that of the leaf whose region holds [c]; [None] outside
    the tree. *)
Fixpoint leafZoom (cfg : Config) (c : Coord) (t : QuadTree) : option nat :=
  match t with
  | Leaf k _ => if covers cfg c k then Some (zoomOf k) else None
  | Quad k _ nw ne sw se =>
      if covers cfg c k then
        match leafZoom cfg c nw, leafZoom cfg c ne, leafZoom cfg c sw, leafZoom cfg c se with
        | Some z, _, _, _ => Some z
        | _, Some z, _, _ => Some z
        | _, _, Some z, _ => Some z
        | _, _, _, r => r
        end
      else None
  end.

(** Modelled from the spec: without an index the caller's fixed zoom is
    used for every tile fetch. *)
Definition zoomAt (cfg : Config) (qt : option QuadTree) (c : Coord) : nat :=
  match qt with
  | None => zoom cfg
  | Some t => default (zoom cfg) (leafZoom cfg c t)
  end.

(** Modelled from the spec: the tiles that exist at a zoom level. *)
Definition inRange (k : TileKey) : bool :=
  let '(z, x, y) := k in
  (0 <=? x) && (x <? 2 ^ Z.of_nat z) && (0 <=? y) && (y <? 2 ^ Z.of_nat z).

(** Modelled from the spec: the tile a coordinate falls into, then its
    neighbour cells (the eight cells around it that exist at that zoom). *)
Definition tilesAround (cfg : Config) (qt : option QuadTree) (c : Coord) : list TileKey :=
  let z := zoomAt cfg qt c in
  let '(x, y) := tileOf cfg z c in
  (z, x, y) ::
  List.filter inRange
    [(z, x - 1, y - 1); (z, x, y - 1); (z, x + 1, y - 1);
     (z, x - 1, y);                    (z, x + 1, y);
     (z, x - 1, y + 1); (z, x, y + 1); (z, x + 1, y + 1)].

(** Modelled from the spec: the tile loads the engine triggers before it
    expands a node at coordinate [c]. *)
Definition ensureRegionLoaded (cfg : Config) (qt : option QuadTree) (c : Coord)
    (st : Store) : EngineError + Store :=
  ensureTilesLoaded cfg (tilesAround cfg qt c) st.

(** ** The search frontier (sections 3 and 4.4) *)

(** Modelled from the spec: a SearchFrontier entry: node id, accumulated
    cost from the relevant origin, priority key, back-pointer. *)
Record Entry := {
  e_node : NodeId;
  e_cost : Z;
  e_priority : Z;
  e_prev : option NodeId
}.

(** Modelled from the spec: one frontier: the best cost and back-pointer
    of every node reached, the nodes already expanded, the priority queue
    in insertion order, and the edges whose target is not materialized
    yet (their traversal is deferred). *)
Record Frontier := {
  best : gmap string Z;
  prev : gmap string string;
  closed : gset string;
  queue : list Entry;
  deferred : list (Entry * NodeId)
}.

(** Modelled from the spec: the shape of a result (section 4.4), without
    the elapsed time. *)
Record PathResult := {
  path : list Node;
  totalCost : Z;
  nodesExpanded : nat;
  tilesFetched : nat
}.

(** Modelled from the spec: what [findPath] ends with: a path, the
    no-path signal, a propagated tile error (sections 4.4 and 7);
    [Unfinished] is the model's own mark for a step budget that ran out. *)
Inductive Outcome :=
| Found (r : PathResult)
| NoPath
| Failed (e : EngineError)
| Unfinished.

(** Modelled from the spec: the forward frontier searches from the
    origin, the backward one from the destination. *)
Inductive Direction := Forward | Backward.

(** Modelled from the spec: lower priority first; among equal priorities
    the lower cost; among equal costs the earlier insertion. *)
Definition before (a b : Entry) : bool :=
  (e_priority a <? e_priority b)
  || ((e_priority a =? e_priority b) && (e_cost a <? e_cost b)).

(** Modelled from the spec: the entry a pop returns. *)
Fixpoint top (q : list Entry) : option Entry :=
  match q with
  | [] => None
  | e :: rest =>
      match top rest with
      | Some m => if before m e then Some m else Some e
      | None => Some e
      end
  end.

(** Modelled from the spec: the queue without the entry of a node. *)
Definition without (i : NodeId) (q : list Entry) : list Entry :=
  List.filter (fun e => negb (String.eqb (e_node e) i)) q.

(** Modelled from the spec: the node popped leaves the queue and is
    marked expanded, so that no node is expanded twice (section 8). *)
Definition close (u : Entry) (f : Frontier) : Frontier :=
  {| best := best f; prev := prev f;
     closed := {[e_node u]} ∪ closed f;
     queue := without (e_node u) (queue f);
     deferred := deferred f |}.

(** Modelled from the spec: relaxation: [newCost = cost[u] + distance(edge)];
    the neighbour is pushed, or its entry replaced, only on a strictly
    smaller cost; [h] is the heuristic part of the priority key. *)
Definition relax (h : Node -> Z) (u : Entry) (w : Z) (v : Node) (f : Frontier) : Frontier :=
  let c := e_cost u + w in
  if bool_decide (id v ∈ closed f) then f
  else if match best f !! id v with Some old => old <=? c | None => false end then f
  else {| best := <[id v := c]> (best f);
          prev := <[id v := e_node u]> (prev f);
          closed := closed f;
          queue := without (id v) (queue f)
                   ++ [{| e_node := id v; e_cost := c; e_priority := c + h v;
                          e_prev := Some (e_node u) |}];
          deferred := deferred f |}.

(** Modelled from the spec: [neighbors(nodeId)]; the forward frontier
    follows the edges, the backward one the reverse edges. *)
Definition neighbors (d : Direction) (g : NetworkGraph) (i : NodeId) : list NodeId :=
  match d with
  | Forward => adjacent (succs g) i
  | Backward => adjacent (preds g) i
  end.

(** Modelled from the spec: the weight of an edge is [distance] of its
    source and target, whichever frontier traverses it.  It is computed
    here when the edge is traversed; nodes never change once inserted, so
    the number is the one insertion time would give. *)
Definition edgeCost (cfg : Config) (d : Direction) (u v : Node) : Z :=
  match d with
  | Forward => distance cfg u v
  | Backward => distance cfg v u
  end.

(** Modelled from the spec: the node record of an id: the graph's, or
    else the query's own origin or destination, which come with their
    coordinates. *)
Definition nodeAt (g : NetworkGraph) (origin dest : Node) (i : NodeId) : Node :=
  match getNode g i with
  | Some n => n
  | None => if String.eqb i (id dest) then dest else origin
  end.

(** Modelled from the spec: an edge is traversable once its endpoints
    exist in the graph; otherwise its traversal is deferred. *)
Definition visit (cfg : Config) (d : Direction) (h : Node -> Z) (g : NetworkGraph)
    (origin dest : Node) (f : Frontier) (edge : Entry * NodeId) : Frontier :=
  let '(u, t) := edge in
  match getNode g t with
  | Some v => relax h u (edgeCost cfg d (nodeAt g origin dest (e_node u)) v) v f
  | None => {| best := best f; prev := prev f; closed := closed f; queue := queue f;
               deferred := deferred f ++ [(u, t)] |}
  end.

(** Modelled from the spec: everything to traverse when [u] is expanded:
    the edges deferred so far, then the edges of [u] itself. *)
Definition pendingEdges (d : Direction) (g : NetworkGraph) (u : Entry) (f : Frontier)
  : list (Entry * NodeId) :=
  deferred f ++ List.map (fun t => (u, t)) (neighbors d g (e_node u)).

(** Modelled from the spec: relax each edge of the expanded node. *)
Definition expand (cfg : Config) (d : Direction) (h : Node -> Z) (g : NetworkGraph)
    (origin dest : Node) (u : Entry) (f : Frontier) : Frontier :=
  fold_left (visit cfg d h g origin dest) (pendingEdges d g u f)
    {| best := best f; prev := prev f; closed := closed f; queue := queue f;
       deferred := [] |}.

(** Modelled from the spec: a frontier starts with its start node at
    cost 0. *)
Definition initFrontier (h : Node -> Z) (start : Node) : Frontier :=
  {| best := {[id start := 0]}; prev := ∅; closed := ∅;
     queue := [{| e_node := id start; e_cost := 0; e_priority := 0 + h start;
                  e_prev := None |}];
     deferred := [] |}.

(** Modelled from the spec: path reconstruction: following the
    back-pointers from [i] to the start of the search. *)
Fixpoint walkBack (back : gmap string string) (fuel : nat) (i : NodeId)
    (acc : list NodeId) : list NodeId :=
  match fuel with
  | O => i :: acc
  | S n =>
      match back !! i with
      | Some p => walkBack back n p (i :: acc)
      | None => i :: acc
      end
  end.

(** Modelled from the spec: the ids from the start of a frontier to [i]. *)
Definition pathTo (f : Frontier) (i : NodeId) : list NodeId :=
  walkBack (prev f) (size (prev f)) i [].

(** Modelled from the spec: the search loop, a step repeated until it
    yields a result; the model bounds it by a step budget. *)
Fixpoint iterate {S : Type} (step : S -> Outcome + S) (fuel : nat) (s : S) : Outcome :=
  match fuel with
  | O => Unfinished
  | Datatypes.S n =>
      match step s with
      | inl r => r
      | inr s' => iterate step n s'
      end
  end.

(** ** Dijkstra and A* (section 4.4) *)

(** Modelled from the spec: the state of a one-frontier search: store,
    frontier, number of nodes expanded. *)
Record Search := {
  store : Store;
  frontier : Frontier;
  expanded : nat
}.

(** Modelled from the spec: pop the lowest entry; the search ends when
    the destination is popped or the queue is empty; otherwise the
    node's tiles are materialized (a tile error is propagated) and its
    outgoing edges relaxed. *)
Definition searchStep (cfg : Config) (qt : option QuadTree) (h : Node -> Z)
    (origin dest : Node) (s : Search) : Outcome + Search :=
  match top (queue (frontier s)) with
  | None => inl NoPath
  | Some u =>
      if String.eqb (e_node u) (id dest) then
        inl (Found {| path := List.map (nodeAt (graph (store s)) origin dest)
                                (pathTo (frontier s) (e_node u));
                      totalCost := e_cost u;
                      nodesExpanded := expanded s;
                      tilesFetched := fetched (store s) |})
      else
        match ensureRegionLoaded cfg qt
                (coordinates (nodeAt (graph (store s)) origin dest (e_node u)))
                (store s) with
        | inl e => inl (Failed e)
        | inr st =>
            inr {| store := st;
                   frontier := expand cfg Forward h (graph st) origin dest u
                                 (close u (frontier s));
                   expanded := S (expanded s) |}
        end
  end.

(** Modelled from the spec: if origin equals destination, the single-node
    path of cost 0, with no tile fetch (section 8). *)
Definition search (cfg : Config) (qt : option QuadTree) (h : Node -> Z)
    (origin dest : Node) (fuel : nat) : Outcome :=
  if String.eqb (id origin) (id dest) then
    Found {| path := [origin]; totalCost := 0; nodesExpanded := 0; tilesFetched := 0 |}
  else
    iterate (searchStep cfg qt h origin dest) fuel
      {| store := emptyStore; frontier := initFrontier h origin; expanded := 0 |}.

(** Modelled from the spec: Dijkstra: the priority key is the accumulated
    cost. *)
Definition Dijkstra_findPath (cfg : Config) (qt : option QuadTree)
    (origin dest : Node) (fuel : nat) : Outcome :=
  search cfg qt (fun _ => 0) origin dest fuel.

(** Modelled from the spec: A*: the priority key is the accumulated cost
    plus [heuristic(node, destination)]. *)
Definition AStar_findPath (cfg : Config) (qt : option QuadTree)
    (origin dest : Node) (fuel : nat) : Outcome :=
  search cfg qt (fun n => heuristic cfg n dest) origin dest fuel.

(** ** NBA* (section 4.4) *)

(** Modelled from the spec: the three ways of giving the turn that the
    design document names (strict alternation, the smaller frontier, the
    frontier whose top priority is smaller); the direction is the one
    that begins, or that wins a tie. *)
Inductive Policy :=
| StrictAlternation (first : Direction)
| SmallerFrontier (tie : Direction)
| SmallerTop (tie : Direction).

(** Modelled from the spec: two frontiers over one store, the best
    meeting cost (absent for infinity) with the node where it was met. *)
Record Bidirectional := {
  b_store : Store;
  fwd : Frontier;
  bwd : Frontier;
  bestMeetingCost : option Z;
  meeting : option NodeId;
  nextTurn : Direction;
  b_expanded : nat
}.

(** Modelled from the spec: alternation gives the turn to the other
    frontier. *)
Definition opposite (d : Direction) : Direction :=
  match d with
  | Forward => Backward
  | Backward => Forward
  end.

(** Modelled from the spec: which frontier expands next. *)
Definition choose (p : Policy) (s : Bidirectional) (ft bt : Entry) : Direction :=
  match p with
  | StrictAlternation _ => nextTurn s
  | SmallerFrontier tie =>
      let nf := List.length (queue (fwd s)) in
      let nb := List.length (queue (bwd s)) in
      if (nf <? nb)%nat then Forward else if (nb <? nf)%nat then Backward else tie
  | SmallerTop tie =>
      if e_priority ft <? e_priority bt then Forward
      else if e_priority bt <? e_priority ft then Backward
      else tie
  end.

(** Modelled from the spec: the termination rule: stop when
    [forwardTop.priority + backwardTop.priority >= bestMeetingCost]. *)
Definition shouldStop (mu : option Z) (ft bt : Entry) : bool :=
  match mu with
  | Some m => m <=? e_priority ft + e_priority bt
  | None => false
  end.

(** Modelled from the spec: [bestMeetingCost] is updated whenever a node
    is reached by both frontiers with a combined cost lower than the
    current best. *)
Definition meet (this other : Frontier) (acc : option Z * option NodeId) (t : NodeId)
  : option Z * option NodeId :=
  match best this !! t, best other !! t with
  | Some a, Some b =>
      match fst acc with
      | Some m => if a + b <? m then (Some (a + b), Some t) else acc
      | None => (Some (a + b), Some t)
      end
  | _, _ => acc
  end.

(** Modelled from the spec: the forward path to the meeting node, then
    the reverse of the backward path from it. *)
Definition joinPaths (s : Bidirectional) (m : NodeId) : list NodeId :=
  pathTo (fwd s) m ++ tl (rev (pathTo (bwd s) m)).

(** Modelled from the spec: the result once the search stops: the best
    meeting found, or no path if the frontiers never met. *)
Definition conclude (origin dest : Node) (s : Bidirectional) : Outcome :=
  match meeting s, bestMeetingCost s with
  | Some m, Some c =>
      Found {| path := List.map (nodeAt (graph (b_store s)) origin dest) (joinPaths s m);
               totalCost := c;
               nodesExpanded := b_expanded s;
               tilesFetched := fetched (b_store s) |}
  | _, _ => NoPath
  end.

(** Modelled from the spec: one iteration of NBA*: if a frontier is
    empty, conclude; if the termination rule holds, conclude; otherwise
    the frontier chosen pops its top, materializes its tiles (a tile
    error is propagated), relaxes its edges, and the best meeting cost is
    updated over the nodes just reached. *)
Definition nbaStep (cfg : Config) (qt : option QuadTree) (p : Policy)
    (origin dest : Node) (s : Bidirectional) : Outcome + Bidirectional :=
  match top (queue (fwd s)), top (queue (bwd s)) with
  | Some ft, Some bt =>
      if shouldStop (bestMeetingCost s) ft bt then inl (conclude origin dest s)
      else
        let d := choose p s ft bt in
        let u := match d with Forward => ft | Backward => bt end in
        let h := match d with
                 | Forward => fun n => heuristic cfg n dest
                 | Backward => fun n => heuristic cfg n origin
                 end in
        let this := match d with Forward => fwd s | Backward => bwd s end in
        let other := match d with Forward => bwd s | Backward => fwd s end in
        match ensureRegionLoaded cfg qt
                (coordinates (nodeAt (graph (b_store s)) origin dest (e_node u)))
                (b_store s) with
        | inl e => inl (Failed e)
        | inr st =>
            let this0 := close u this in
            let this' := expand cfg d h (graph st) origin dest u this0 in
            let '(mu, m) :=
              fold_left (meet this' other)
                (List.map snd (pendingEdges d (graph st) u this0))
                (bestMeetingCost s, meeting s) in
            inr {| b_store := st;
                   fwd := match d with Forward => this' | Backward => other end;
                   bwd := match d with Forward => other | Backward => this' end;
                   bestMeetingCost := mu;
                   meeting := m;
                   nextTurn := opposite d;
                   b_expanded := S (b_expanded s) |}
        end
  | _, _ => inl (conclude origin dest s)
  end.

(** Modelled from the spec: the frontier that begins. *)
Definition firstTurn (p : Policy) : Direction :=
  match p with
  | StrictAlternation first => first
  | SmallerFrontier tie => tie
  | SmallerTop tie => tie
  end.

(** Modelled from the spec: the forward frontier starts at the origin
    with the distance to the destination as heuristic, the backward one
    at the destination with the distance to the origin. *)
Definition NBAStar_findPath (cfg : Config) (qt : option QuadTree) (p : Policy)
    (origin dest : Node) (fuel : nat) : Outcome :=
  if String.eqb (id origin) (id dest) then
    Found {| path := [origin]; totalCost := 0; nodesExpanded := 0; tilesFetched := 0 |}
  else
    iterate (nbaStep cfg qt p origin dest) fuel
      {| b_store := emptyStore;
         fwd := initFrontier (fun n => heuristic cfg n dest) origin;
         bwd := initFrontier (fun n => heuristic cfg n origin) dest;
         bestMeetingCost := None;
         meeting := None;
         nextTurn := firstTurn p;
         b_expanded := 0 |}.

(** ** The shared contract (section 4.4) *)

(** Modelled from the spec: the three interchangeable strategies. *)
Inductive Algorithm :=
| UseDijkstra
| UseAStar
| UseNBAStar (p : Policy).

(** Modelled from the spec: [findPath(origin, destination)] of the three
    strategies behind one interface. *)
Definition findPath (a : Algorithm) (cfg : Config) (qt : option QuadTree)
    (origin dest : Node) (fuel : nat) : Outcome :=
  match a with
  | UseDijkstra => Dijkstra_findPath cfg qt origin dest fuel
  | UseAStar => AStar_findPath cfg qt origin dest fuel
  | UseNBAStar p => NBAStar_findPath cfg qt p origin dest fuel
  end.

(** Whether a run of the model ended within its step budget. *)
Definition finished (o : Outcome) : bool :=
  match o with
  | Unfinished => false
  | _ => true
  end.

(** Two engine configurations over the same, unchanged tile service and
    with the same options: every query to either gets the same answer. *)
Record sameService (c1 c2 : Config) : Prop := {
  same_zoom : zoom c1 = zoom c2;
  same_maxZoom : maxZoom c1 = maxZoom c2;
  same_rootTile : rootTile c1 = rootTile c2;
  same_tileSource : forall k, tileSource c1 k = tileSource c2 k;
  same_tileCount : forall k, tileCount c1 k = tileCount c2 k;
  same_tileOf : forall z c, tileOf c1 z c = tileOf c2 z c;
  same_distance : forall a b, distance c1 a b = distance c2 a b;
  same_heuristic : forall a b, heuristic c1 a b = heuristic c2 a b
}.

(** ** A sample tile service: five stops on the equator *)

Definition stop (name : string) (lon : Z) : Node :=
  {| id := name; coordinates := (lon, 0); cost := None |}.

(** Great-circle distance between two points of the equator, in units of
    arc: the difference of the longitudes. *)
Definition equatorDistance (a b : Node) : Z :=
  Z.abs (fst (coordinates a) - fst (coordinates b)).

(** Origin [S] at 0, destination [T] at 20; the route [S, A, B, T] costs
    1 + 22 + 1 = 24, the route [S, C, T] costs 4 + 24 = 28. *)
Definition equatorTile : Tile :=
  {| tile_nodes := [stop "S" 0; stop "A" (-1); stop "B" 21; stop "T" 20; stop "C" (-4)];
     tile_edges := [("S", "A"); ("A", "B"); ("B", "T"); ("S", "C"); ("C", "T")] |}.

(** At every zoom the tile at (0, 0) holds the whole network and every
    other tile is empty.  Edge weights and the heuristic are both the
    geographic distance. *)
Definition equatorConfig : Config :=
  {| zoom := 0;
     maxZoom := 2;
     rootTile := (0%nat, 0, 0);
     tileSource := fun k =>
       if bool_decide (snd (fst k) = 0 /\ snd k = 0) then TileOk equatorTile
       else TileOk {| tile_nodes := []; tile_edges := [] |};
     tileCount := fun k =>
       if bool_decide (snd (fst k) = 0 /\ snd k = 0) then 5%nat else 0%nat;
     tileOf := fun _ _ => (0, 0);
     distance := equatorDistance;
     heuristic := equatorDistance |}.

End Engine.

(* ================================================================== *)
(** * 8. Vocabulary of the statements                                   *)
(* ================================================================== *)

(** Location resolution reaches out to the location service or to the
    index file. *)
Definition isResolution (e : event) : bool :=
  match e with
  | EFetch _ | EReadFile _ => true
  | _ => false
  end.

(** The search proper: building the tile index and running [findPath]. *)
Definition isSearch (e : event) : bool :=
  match e with
  | ELoadTileQuadTree _ _ | EFindPath _ _ _ _ => true
  | _ => false
  end.

Definition isConstruction (e : event) : bool :=
  match e with
  | ENew _ _ => true
  | _ => false
  end.

Definition isErrorReport (e : event) : bool :=
  match e with
  | ELog Error _ => true
  | _ => false
  end.

(** A property of every engine constructed during a run. *)
Definition onNew (P : EngineClass -> EngineCfg -> Prop) (e : event) : Prop :=
  match e with
  | ENew cls cfg => P cls cfg
  | _ => True
  end.

(** A property of every request sent to the location service. *)
Definition onFetch (P : string -> Prop) (e : event) : Prop :=
  match e with
  | EFetch url => P url
  | _ => True
  end.

(** A property of every query handed to an engine. *)
Definition onFindPath (P : EngineClass -> EngineCfg -> value -> value -> Prop)
    (e : event) : Prop :=
  match e with
  | EFindPath cls cfg FROM TO => P cls cfg FROM TO
  | _ => True
  end.

(** [X] is [raw] with its [coordinates] set to those of the geometry
    decoded from [raw.wkt]. *)
Definition decodedFrom (E : Env) (raw X : value) : Prop :=
  exists wkt geometry coordinates,
    getProp raw "wkt" = inr wkt /\
    wktParse E wkt = inr geometry /\
    getProp geometry "coordinates" = inr coordinates /\
    setProp raw "coordinates" coordinates = inr X.

(** [raw] is what the location service answered to the request [url]. *)
Definition answerTo (E : Env) (url : string) (raw : value) : Prop :=
  exists body, fetch E url = inr body /\ JSON_parse E body = inr raw.

(** An identifier that could not be resolved: the lookup gave nothing
    ([undefined] from the index, [null] from the service), or wellknown
    could not decode the geometry (it returns [null], or throws). *)
Definition unresolved (E : Env) (raw : value) : Prop :=
  raw = VUndefined \/ raw = VNull \/
  exists wkt, getProp raw "wkt" = inr wkt /\
              (wktParse E wkt = inr VNull \/ exists e, wktParse E wkt = inl e).

Fixpoint contains (needle hay : string) : bool :=
  String.prefix needle hay ||
  match hay with
  | EmptyString => false
  | String _ rest => contains needle rest
  end.

Definition exnText (e : exn) : string :=
  match e with
  | TypeError msg => msg
  | ExternalError origin msg => origin +:+ ": " +:+ msg
  end.

(** Everything a run reports about a failure: its error-level log lines
    and the message of the exception it dies with. *)
Definition failureTexts {A} (m : M A) : list string :=
  omap (fun e => match e with
                 | ELog Error (LogText s) => Some s
                 | ELog Error (LogExn x) => Some (exnText x)
                 | _ => None
                 end) (trace m)
  ++ match outcome m with
     | inl (Throw x) => [exnText x]
     | _ => []
     end.

Definition halted {A} (m : M A) : Prop := exists h, outcome m = inl h.

(** Every use a run makes of the base URL: the location requests are
    built on it and the engine is given it as [tilesBaseURL]. *)
Definition usesBase (base : string) (e : event) : Prop :=
  match e with
  | EFetch url => exists rest, url = base +:+ "/location" +:+ rest
  | ENew _ cfg => cfg_tilesBaseURL cfg = base
  | EFindPath _ cfg _ _ => cfg_tilesBaseURL cfg = base
  | _ => True
  end.

(** Location resolution did not produce two usable locations. *)
Definition resolutionFails (E : Env) (r : M (value * value)) : Prop :=
  match outcome r with
  | inl _ => True
  | inr (rawF, rawT) => unresolved E rawF \/ unresolved E rawT
  end.

(** Whether Cli.js resolves from the local index: [--index] given, and
    not as the empty string. *)
Definition viaIndex (argv : Cli.Args) : bool :=
  match Cli.arg_index argv with
  | None | Some EmptyString => false
  | Some _ => true
  end.

(** The stop [A] with a [length] of 7, and the stop [B] three degrees
    further east. *)
Definition sampleEdge : list value :=
  [VObj [("id", VStr "A"); ("coordinates", VArr [VNum 0; VNum 0] []); ("length", VNum 7)];
   VObj [("id", VStr "B"); ("coordinates", VArr [VNum 3; VNum 0] [])]].
(* ================================================================== *)
(** * 8b. Vocabulary of the further statements                          *)
(* ================================================================== *)

(** What comes before an engine exists: logging, location resolution,
    the fresh graph. *)
Definition isPrelude (e : event) : bool :=
  match e with
  | ELog _ _ | EFetch _ | EReadFile _ | ENewNetworkGraph => true
  | _ => false
  end.

Definition isConsoleLog (e : event) : bool :=
  match e with
  | EConsoleLog _ => true
  | _ => false
  end.

Definition isFetch (e : event) : bool :=
  match e with
  | EFetch _ => true
  | _ => false
  end.

Definition isReadFile (e : event) : bool :=
  match e with
  | EReadFile _ => true
  | _ => false
  end.

(** The shape of every run of TilePlanner.js: prelude events, then
    nothing more, or the construction of the selected engine followed at
    once by [loadTileQuadTree] with the given threshold, then (if that
    succeeded) [findPath] on the same engine, then console output only. *)
Definition TilePlannerShape (sel : option (EngineClass * EngineCfg))
    (th : option string) (t : list event) : Prop :=
  exists pre post,
    t = pre ++ post /\ Forall (fun e => isPrelude e = true) pre /\
    (post = [] \/
     exists cls cfg, sel = Some (cls, cfg) /\
       (post = [ENew cls cfg; ELoadTileQuadTree cls th] \/
        exists FROM TO out,
          post = ENew cls cfg :: ELoadTileQuadTree cls th :: EFindPath cls cfg FROM TO :: out /\
          Forall (fun e => isConsoleLog e = true) out)).

(** The shape of every run of Cli.js: prelude events, then nothing more,
    or the construction of the selected engine, never NBA-star, followed at
    once by [findPath] on it, then at most one console line. *)
Definition CliShape (sel : option (EngineClass * EngineCfg)) (t : list event) : Prop :=
  exists pre post,
    t = pre ++ post /\ Forall (fun e => isPrelude e = true) pre /\
    (post = [] \/
     exists cls cfg FROM TO out,
       sel = Some (cls, cfg) /\ cls <> NBAStar /\
       post = ENew cls cfg :: EFindPath cls cfg FROM TO :: out /\
       (out = [] \/ exists lines, out = [EConsoleLog [VArr lines []]])).

(** A computation that does not end in [process.exit()]. *)
Definition noExit {A} (m : M A) : Prop := outcome m <> inl Exit.

(** A run of TilePlanner.js that ended well: the query, the engine's
    answer to it, and the lines printed for that answer. *)
Definition TilePlannerCompleted (E : Env) (th : option string) (t : list event) : Prop :=
  exists pre cls cfg FROM TO shortestPath,
    engine_findPath E cls cfg (Some th) FROM TO = inr shortestPath /\
    ((truthy shortestPath = false /\
      t = pre ++ [EFindPath cls cfg FROM TO; EConsoleLog [VStr "No path was found :("]]) \/
     (exists path linestring metadata,
        truthy shortestPath = true /\
        TilePlanner.describePath E shortestPath = inr (path, linestring) /\
        getProp shortestPath "metadata" = inr metadata /\
        t = pre ++
            [EFindPath cls cfg FROM TO;
             EConsoleLog [VStr "SHORTEST PATH found: ";
                          VStr (JSON_stringify E (VArr (List.map VStr path) []))];
             EConsoleLog [VStr ("LINESTRING(" +:+ joinWith "," linestring +:+ ")")];
             EConsoleLog [VStr "SHORTEST PATH metadata: "; metadata]])).

(** A run of Cli.js that ended well: the engine answered with an array,
    and one line per element was printed. *)
Definition CliCompleted (E : Env) (t : list event) : Prop :=
  exists pre cls cfg FROM TO elems props lines,
    engine_findPath E cls cfg None FROM TO = inr (VArr elems props) /\
    t = pre ++ [EFindPath cls cfg FROM TO; EConsoleLog [VArr lines []]] /\
    List.length lines = List.length elems.

(** Whether a map entry is filed under the string [k]. *)
Definition keyIs (k : string) (kv : value * value) : bool :=
  match fst kv with
  | VStr s => String.eqb s k
  | _ => false
  end.

(** The JSON shape of an index file: an array of [id, record] pairs. *)
Definition jsonIndex (kvs : list (string * value)) : value :=
  VArr (List.map (fun kv => VArr [VStr (fst kv); snd kv] []) kvs) [].

(** No pair of the list is filed under [id]. *)
Definition unlisted (id : string) (kvs : list (string * value)) : bool :=
  forallb (fun kv => negb (String.eqb (fst kv) id)) kvs.

(** The sample environment with a location service that is down. *)
Definition unreachableEnv (answer : result value) : Env :=
  {| Utils_isValidHttpUrl := Utils_isValidHttpUrl (sampleEnv answer);
     Utils_call := Utils_call (sampleEnv answer);
     fetch := fun url => inl (ExternalError "fetch" "ECONNREFUSED");
     JSON_parse := JSON_parse (sampleEnv answer);
     JSON_stringify := JSON_stringify (sampleEnv answer);
     path_resolve := path_resolve (sampleEnv answer);
     readFile := readFile (sampleEnv answer);
     wktParse := wktParse (sampleEnv answer);
     showNumber := showNumber (sampleEnv answer);
     engine_loadTileQuadTree := engine_loadTileQuadTree (sampleEnv answer);
     engine_findPath := engine_findPath (sampleEnv answer) |}.

(** An array answer, as Cli.js expects it. *)
Definition samplePathArray : value :=
  VArr [VObj [("id", VStr "A")]; VObj [("id", VStr "B")]] [].

(* ================================================================== *)
(** * 9. Strings: the base URL                                          *)
(* ================================================================== *)

Lemma length_append_slash (s : string) :
  String.length (s +:+ "/") = S (String.length s).
Proof. induction s as [|c s IH]; simpl; congruence. Qed.

Lemma substring_all_but_slash (s : string) :
  substring 0 (String.length s) (s +:+ "/") = s.
Proof. induction s as [|c s IH]; simpl; congruence. Qed.

Lemma substring_last_slash (s : string) :
  substring (String.length s) 1 (s +:+ "/") = "/".
Proof. induction s as [|c s IH]; simpl; congruence. Qed.

Lemma endsWith_append_slash (s : string) : endsWith (s +:+ "/") "/" = true.
Proof.
  unfold endsWith. rewrite length_append_slash. cbn [String.length].
  replace (S (String.length s) - 1)%nat with (String.length s) by lia.
  by rewrite substring_last_slash.
Qed.

Lemma dropLast_append_slash (s : string) : dropLast (s +:+ "/") = s.
Proof.
  unfold dropLast. rewrite length_append_slash.
  replace (S (String.length s) - 1)%nat with (String.length s) by lia.
  apply substring_all_but_slash.
Qed.

Lemma tilesBase_append_slash (s : string) : tilesBase (s +:+ "/") = s.
Proof.
  unfold tilesBase. by rewrite endsWith_append_slash, dropLast_append_slash.
Qed.

(** A string that [endsWith] accepts really is some string followed by
    the slash. *)
Lemma endsWith_slash_inv (s : string) :
  endsWith s "/" = true -> exists s', s = s' +:+ "/".
Proof.
  unfold endsWith. cbn [String.length].
  induction s as [|c s IH]; [done|].
  destruct s as [|c' s].
  - cbn. destruct (Ascii.eqb_spec c "/") as [->|]; [|done].
    intros _. by exists EmptyString.
  - intros H. destruct IH as [s' Hs'].
    + apply andb_true_iff in H as [_ H]. apply andb_true_iff. split; [done|].
      cbn [String.length] in *.
      replace (S (S (String.length s)) - 1)%nat with (S (String.length s)) in H by lia.
      replace (S (String.length s) - 1)%nat with (String.length s) by lia.
      exact H.
    + exists (String c s'). rewrite Hs'. reflexivity.
Qed.

Example encodeURIComponent_sample :
  encodeURIComponent "stop 7/a?b=c&d" = "stop%207%2Fa%3Fb%3Dc%26d".
Proof. reflexivity. Qed.

Lemma endsWith_slash_iff (s : string) :
  endsWith s "/" = true <-> exists s', s = s' +:+ "/".
Proof.
  split; [apply endsWith_slash_inv|]. intros [s' ->]. apply endsWith_append_slash.
Qed.

(* ================================================================== *)
(** * 10. Traces and halting                                            *)
(* ================================================================== *)

Section TraceLemmas.
Context {A B : Type}.

Lemma trace_bind (m : M A) (f : A -> M B) :
  trace (m ≫= f) =
  trace m ++ match outcome m with inr a => trace (f a) | inl _ => [] end.
Proof.
  destruct m as [t [h|a]]; cbn; [by rewrite app_nil_r | done].
Qed.

Lemma outcome_bind (m : M A) (f : A -> M B) :
  outcome (m ≫= f) =
  match outcome m with inr a => outcome (f a) | inl h => inl h end.
Proof. by destruct m as [t [h|a]]. Qed.

Lemma Forall_bind (P : event -> Prop) (m : M A) (f : A -> M B) :
  Forall P (trace m) ->
  (forall a, outcome m = inr a -> Forall P (trace (f a))) ->
  Forall P (trace (m ≫= f)).
Proof.
  intros Hm Hf. rewrite trace_bind. apply Forall_app. split; [done|].
  destruct (outcome m) as [h|a]; [constructor | by apply Hf].
Qed.

Lemma halted_bind_l (m : M A) (f : A -> M B) : halted m -> halted (m ≫= f).
Proof. intros [h Hh]. exists h. by rewrite outcome_bind, Hh. Qed.

Lemma halted_bind_r (m : M A) (f : A -> M B) :
  (forall a, outcome m = inr a -> halted (f a)) -> halted (m ≫= f).
Proof.
  intros Hf. unfold halted. rewrite outcome_bind.
  destruct (outcome m) as [h|a] eqn:Hm; [by exists h | by apply Hf].
Qed.
End TraceLemmas.

Lemma Forall_lift {A} (P : event -> Prop) (r : result A) : Forall P (trace (lift r)).
Proof. destruct r; constructor. Qed.

Lemma Forall_emit (P : event -> Prop) (e : event) : P e -> Forall P (trace (emit e)).
Proof. intros; cbn. by constructor. Qed.

Lemma Forall_tryCatch {A} (P : event -> Prop) (m : M A) (h : exn -> M A) :
  Forall P (trace m) -> (forall e, Forall P (trace (h e))) ->
  Forall P (trace (tryCatch m h)).
Proof.
  intros Hm Hh. destruct m as [t [[|e]|a]]; cbn in *; try done.
  apply Forall_app. split; [done | apply Hh].
Qed.

Lemma outcome_lift {A} (r : result A) (a : A) : outcome (lift r) = inr a -> r = inr a.
Proof. destruct r; cbn; congruence. Qed.

Lemma halted_exit {A} : halted (@exit A).
Proof. by exists Exit. Qed.

Lemma halted_throw {A} (e : exn) : halted (@throw A e).
Proof. by exists (Throw e). Qed.

(** One step through a run: a bind splits into its two halves, an
    emitted event leaves the obligation on that event, a branch on a
    collaborator's answer is taken both ways. *)
Ltac trace_step :=
  match goal with
  | |- Forall _ (trace (mbind _ _)) => apply Forall_bind; [| intros ? ?]
  | |- Forall _ (trace (lift _)) => apply Forall_lift
  | |- Forall _ (trace (mret _)) => constructor
  | |- Forall _ (trace exit) => constructor
  | |- Forall _ (trace (throw _)) => constructor
  | |- Forall _ (trace (emit _)) => apply Forall_emit
  | |- Forall _ (trace (tryCatch _ _)) => apply Forall_tryCatch; [| intros ?]
  | |- Forall _ (trace (let '(_, _) := ?x in _)) => destruct x
  | |- Forall _ (trace (if ?b then _ else _)) => destruct b eqn:?
  | |- Forall _ (trace (match ?x with _ => _ end)) => destruct x eqn:?
  end.

Ltac trace_run := repeat trace_step.

Lemma Forall_withCoordinates (P : event -> Prop) E X :
  Forall P (trace (withCoordinates E X)).
Proof. unfold withCoordinates. trace_run. Qed.

Lemma Forall_fetchLocations (P : event -> Prop) E u1 u2 :
  P (EFetch u1) -> P (EFetch u2) -> Forall P (trace (fetchLocations E u1 u2)).
Proof. intros H1 H2. unfold fetchLocations, fetchBody. trace_run; done. Qed.

Lemma Forall_TilePlanner_report (P : event -> Prop) E v :
  (forall args, P (EConsoleLog args)) -> Forall P (trace (TilePlanner.report E v)).
Proof. intros H. unfold TilePlanner.report. trace_run; apply H. Qed.

Lemma withCoordinates_decoded E raw X :
  outcome (withCoordinates E raw) = inr X -> decodedFrom E raw X.
Proof.
  unfold withCoordinates, decodedFrom. rewrite !outcome_bind.
  destruct (getProp raw "wkt") as [e|wkt] eqn:Hw; cbn; [done|].
  destruct (wktParse E wkt) as [e|g] eqn:Hg; cbn; [done|].
  destruct (getProp g "coordinates") as [e|c] eqn:Hc; cbn; [done|].
  destruct (setProp raw "coordinates" c) as [e|X'] eqn:Hs; cbn; [done|].
  intros [= <-]. by exists wkt, g, c.
Qed.

Lemma fetchLocations_answers E u1 u2 v1 v2 :
  outcome (fetchLocations E u1 u2) = inr (v1, v2) ->
  answerTo E u1 v1 /\ answerTo E u2 v2.
Proof.
  unfold fetchLocations, fetchBody, answerTo. rewrite !outcome_bind. cbn.
  destruct (fetch E u1) as [e|b1] eqn:H1; cbn; [done|].
  destruct (fetch E u2) as [e|b2] eqn:H2; cbn; [done|].
  destruct (JSON_parse E b1) as [e|w1] eqn:J1; cbn; [done|].
  destruct (JSON_parse E b2) as [e|w2] eqn:J2; cbn; [done|].
  intros [= <- <-]. split; eauto.
Qed.

Lemma unresolved_halts E raw : unresolved E raw -> halted (withCoordinates E raw).
Proof.
  unfold withCoordinates, halted. rewrite !outcome_bind.
  intros [-> | [-> | (wkt & Hw & Hg)]]; cbn; [eauto | eauto |].
  rewrite Hw. cbn. destruct Hg as [-> | [e ->]]; cbn; eauto.
Qed.

(* ================================================================== *)
(** * 11. The entry points                                              *)
(* ================================================================== *)

Lemma Forall_Cli_resolve (P : event -> Prop) E o base :
  (forall lvl msg, P (ELog lvl msg)) ->
  (forall file, P (EReadFile file)) ->
  P (EFetch (base +:+ "/location/" +:+ encodeURIComponent (Cli.from o))) ->
  P (EFetch (base +:+ "/location/" +:+ encodeURIComponent (Cli.to o))) ->
  Forall P (trace (Cli.resolve E o base)).
Proof.
  intros HL HR H1 H2.
  assert (Forall P (trace (Cli.resolveRemote E o base))) as Hremote.
  { unfold Cli.resolveRemote. trace_run; [apply HL|].
    by apply Forall_fetchLocations. }
  unfold Cli.resolve. destruct (Cli.index o) as [[|c file]|]; [done| |done].
  unfold Cli.resolveLocal. trace_run; auto.
Qed.

(** One step through either [run()], with the phases the two scripts
    share taken as wholes. *)
Ltac run_step :=
  first
    [ apply Forall_withCoordinates
    | apply Forall_fetchLocations
    | apply Forall_TilePlanner_report; intros ?
    | apply Forall_Cli_resolve; [intros ? ? | intros ? | |]
    | trace_step ].

Ltac run_steps := repeat run_step.

Lemma TilePlanner_selectEngine_cfg o base cls cfg :
  TilePlanner.selectEngine o base = Some (cls, cfg) ->
  cfg_tilesBaseURL cfg = base /\ cfg_zoom cfg = TilePlanner.zoom o /\
  cfg_distance cfg = TilePlanner.distance o.
Proof.
  unfold TilePlanner.selectEngine. repeat case_match; intros [= <- <-]; done.
Qed.

Lemma Cli_selectEngine_cfg o base cls cfg :
  Cli.selectEngine o base = Some (cls, cfg) ->
  cfg_tilesBaseURL cfg = base /\ cfg_zoom cfg = Cli.zoom o /\
  cfg_distance cfg = FnField "length".
Proof.
  unfold Cli.selectEngine. repeat case_match; intros [= <- <-]; done.
Qed.

(** ** The base URL *)

(** C10.  For every [--tiles] value, the base URL is the value with its
    last character removed when it ends with a slash (so exactly one
    slash goes, and a value ending in two slashes keeps one) and the
    value itself otherwise; every location request of either script is
    built on that base, and every engine is constructed and queried with
    it as [tilesBaseURL]. *)
Theorem tiles_base_url (E : Env) :
  (forall s, tilesBase (s +:+ "/") = s) /\
  (forall s, endsWith s "/" = false -> tilesBase s = s) /\
  (forall s, endsWith s "/" = true <-> exists s', s = s' +:+ "/") /\
  (forall argv,
     Forall (usesBase (tilesBase (TilePlanner.arg_tiles argv)))
            (trace (TilePlanner.run E argv))) /\
  (forall argv,
     Forall (usesBase (tilesBase (Cli.arg_tiles argv))) (trace (Cli.run E argv))).
Proof.
  split; [exact tilesBase_append_slash|].
  split; [intros s Hs; unfold tilesBase; by rewrite Hs|].
  split; [exact endsWith_slash_iff|].
  split; intros argv.
  - unfold TilePlanner.run. run_steps; try exact I; cbn; eauto.
    all: match goal with
         | H : TilePlanner.selectEngine _ _ = Some _ |- _ =>
             apply TilePlanner_selectEngine_cfg in H; tauto
         end.
  - unfold Cli.run. run_steps; try exact I; cbn; eauto.
    all: match goal with
         | H : Cli.selectEngine _ _ = Some _ |- _ =>
             apply Cli_selectEngine_cfg in H; tauto
         end.
Qed.

Lemma tiles_base_url_witness :
  tilesBase "http://tiles.example//" = "http://tiles.example/" /\
  tilesBase "http://tiles.example" = "http://tiles.example" /\
  Forall (usesBase "http://tiles.example/")
    (trace (TilePlanner.run (sampleEnv (inr VNull))
              (sampleTilePlannerArgs "http://tiles.example//" None false))).
Proof.
  destruct (tiles_base_url (sampleEnv (inr VNull))) as (H1 & H2 & _ & H4 & _).
  split; [exact (H1 "http://tiles.example/")|].
  split; [apply H2; reflexivity|].
  exact (H4 (sampleTilePlannerArgs "http://tiles.example//" None false)).
Defined.

(** ** The cost function *)

(** C2, as the code has it.  In TilePlanner.js the cost function handed
    to the engine is [Utils.haversineDistance] in edge-weighted mode (the
    default) and returns the [cost] field of its argument in
    node-weighted mode.  Cli.js has no [--node-weighted] option: the cost
    function it hands over always returns the [length] field of its
    argument. *)
Theorem cost_function_injected (E : Env) :
  (forall argv,
     Forall (onNew (fun _ cfg =>
               if TilePlanner.arg_nodeWeighted argv
               then forall node rest,
                      applyFn E (cfg_distance cfg) (node :: rest) = getProp node "cost"
               else forall args,
                      applyFn E (cfg_distance cfg) args
                      = Utils_call E "haversineDistance" args))
            (trace (TilePlanner.run E argv))) /\
  (forall argv,
     Forall (onNew (fun _ cfg =>
               forall node rest,
                 applyFn E (cfg_distance cfg) (node :: rest) = getProp node "length"))
            (trace (Cli.run E argv))).
Proof.
  split; intros argv.
  - unfold TilePlanner.run. run_steps; try exact I. cbn.
    match goal with
    | H : TilePlanner.selectEngine _ _ = Some _ |- _ =>
        apply TilePlanner_selectEngine_cfg in H as (_ & _ & ->)
    end.
    unfold TilePlanner.distance. cbn. by destruct (TilePlanner.arg_nodeWeighted argv).
  - unfold Cli.run. run_steps; try exact I. cbn.
    match goal with
    | H : Cli.selectEngine _ _ = Some _ |- _ =>
        apply Cli_selectEngine_cfg in H as (_ & _ & ->)
    end.
    done.
Qed.

(** C2 fails as stated: Cli.js runs in the default mode, and the cost
    function it injects is not the haversine distance.  On [sampleEdge]
    it answers 7, the [length] field, where the haversine distance of the
    sample environment is 3. *)
Lemma Cli_distance_is_not_haversine :
  ~ (forall (E : Env) (argv : Cli.Args),
       Forall (onNew (fun _ cfg =>
                 forall args,
                   applyFn E (cfg_distance cfg) args
                   = Utils_call E "haversineDistance" args))
              (trace (Cli.run E argv))).
Proof.
  intros H.
  specialize (H (sampleEnv (inr VNull)) (sampleCliArgs "A" (Some "Dijkstra") None)).
  eapply Forall_lookup_1 with (i := 5%nat) in H; [|vm_compute; reflexivity].
  specialize (H sampleEdge). vm_compute in H. discriminate H.
Qed.

Lemma cost_function_injected_witness :
  applyFn (sampleEnv (inr VNull)) (FnField "cost") [VObj [("cost", VNum 5)]]
  = getProp (VObj [("cost", VNum 5)]) "cost" /\
  applyFn (sampleEnv (inr VNull)) (FnField "length") sampleEdge
  = getProp (hd VUndefined sampleEdge) "length".
Proof.
  destruct (cost_function_injected (sampleEnv (inr VNull))) as [HT HC].
  split.
  - pose proof (HT (sampleTilePlannerArgs "http://tiles.example/" None true)) as H.
    eapply Forall_lookup_1 with (i := 5%nat) in H; [|vm_compute; reflexivity].
    exact (H _ _).
  - pose proof (HC (sampleCliArgs "A" (Some "Dijkstra") None)) as H.
    eapply Forall_lookup_1 with (i := 5%nat) in H; [|vm_compute; reflexivity].
    exact (H _ _).
Defined.

(** ** The absent result *)

(** C3 at the failing input.  With an engine that answers [null] (no
    path), Cli.js dies on [path.map] with a [TypeError] and prints
    nothing, where TilePlanner.js prints its no-path line and returns. *)
Theorem Cli_fails_on_absent_path :
  outcome (Cli.run (sampleEnv (inr VNull)) (sampleCliArgs "A" (Some "Dijkstra") None))
  = inl (Throw (TypeError "Cannot read properties of null (reading 'map')")) /\
  (forall E, Cli.describePath E VNull
             = inl (TypeError "Cannot read properties of null (reading 'map')")) /\
  (forall E, Cli.describePath E VUndefined
             = inl (TypeError "Cannot read properties of undefined (reading 'map')")) /\
  (forall E, TilePlanner.report E VNull
             = ([EConsoleLog [VStr "No path was found :("]], inr tt)) /\
  (forall E, TilePlanner.report E VUndefined
             = ([EConsoleLog [VStr "No path was found :("]], inr tt)) /\
  outcome (TilePlanner.run (sampleEnv (inr VNull))
             (sampleTilePlannerArgs "http://tiles.example/" (Some "Dijkstra") false))
  = inr tt.
Proof. repeat split; vm_compute; reflexivity. Qed.

(** ** The default algorithm *)

(** C5 at the failing input.  With no [--algorithm], TilePlanner.js
    selects NBA*; Cli.js, whose option has the same default, has no case
    for it: it constructs no engine and exits. *)
Theorem Cli_default_algorithm_exits :
  (forall f t z tl th nw dbg base,
     exists cfg,
       TilePlanner.selectEngine
         (TilePlanner.parse
            {| TilePlanner.arg_from := f; TilePlanner.arg_to := t;
               TilePlanner.arg_zoom := z; TilePlanner.arg_tiles := tl;
               TilePlanner.arg_threshold := th; TilePlanner.arg_algorithm := None;
               TilePlanner.arg_nodeWeighted := nw; TilePlanner.arg_debug := dbg |})
         base = Some (NBAStar, cfg)) /\
  (forall f t z tl idx dbg base,
     Cli.selectEngine
       (Cli.parse
          {| Cli.arg_from := f; Cli.arg_to := t; Cli.arg_zoom := z;
             Cli.arg_tiles := tl; Cli.arg_algorithm := None;
             Cli.arg_index := idx; Cli.arg_debug := dbg |})
       base = None) /\
  outcome (Cli.run (sampleEnv (inr samplePathResult)) (sampleCliArgs "A" None None))
  = inl Exit /\
  existsb isConstruction
    (trace (Cli.run (sampleEnv (inr samplePathResult)) (sampleCliArgs "A" None None)))
  = false.
Proof.
  split; [intros; eexists; reflexivity|].
  split; [intros; reflexivity|].
  split; vm_compute; reflexivity.
Qed.

(** ** Invalid configurations *)

Ltac halt_step :=
  match goal with
  | |- halted (mbind _ _) => apply halted_bind_r; intros ? ?
  | |- halted exit => apply halted_exit
  | |- halted (throw _) => apply halted_throw
  | |- halted (let '(_, _) := ?x in _) => destruct x
  end.

Lemma TilePlanner_selectEngine_unknown o base :
  TilePlanner.algorithm o <> "Dijkstra" -> TilePlanner.algorithm o <> "A*" ->
  TilePlanner.algorithm o <> "NBA*" -> TilePlanner.selectEngine o base = None.
Proof.
  intros H1 H2 H3. unfold TilePlanner.selectEngine.
  apply String.eqb_neq in H1, H2, H3. by rewrite H1, H2, H3.
Qed.

Lemma Cli_selectEngine_unknown o base :
  Cli.algorithm o <> "Dijkstra" -> Cli.algorithm o <> "A*" ->
  Cli.selectEngine o base = None.
Proof.
  intros H1 H2. unfold Cli.selectEngine.
  apply String.eqb_neq in H1, H2. by rewrite H1, H2.
Qed.

Lemma trace_tryCatch {A} (m : M A) (h : exn -> M A) :
  trace (tryCatch m h) =
  trace m ++ match outcome m with inl (Throw e) => trace (h e) | _ => [] end.
Proof. destruct m as [t [[|e]|a]]; cbn; by rewrite ?app_nil_r. Qed.

Lemma trace_fetchLocations_first E u1 u2 :
  exists rest, trace (fetchLocations E u1 u2) = EFetch u1 :: rest.
Proof.
  unfold fetchLocations, fetchBody. rewrite !trace_bind. cbn. eauto.
Qed.

Lemma trace_Cli_resolve_first E o base :
  exists msg e rest,
    trace (Cli.resolve E o base) = ELog Debug msg :: e :: rest /\ isResolution e = true.
Proof.
  assert (exists msg e rest,
            trace (Cli.resolveRemote E o base) = ELog Debug msg :: e :: rest /\
            isResolution e = true) as Hremote.
  { unfold Cli.resolveRemote. rewrite trace_bind. cbn [outcome trace fst snd emit app].
    destruct (trace_fetchLocations_first E
                (base +:+ "/location/" +:+ encodeURIComponent (Cli.from o))
                (base +:+ "/location/" +:+ encodeURIComponent (Cli.to o))) as [rest ->].
    eauto 6. }
  unfold Cli.resolve. destruct (Cli.index o) as [[|c file]|]; [done| |done].
  unfold Cli.resolveLocal. rewrite trace_bind. cbn [outcome trace fst snd emit app].
  rewrite trace_tryCatch, trace_bind. cbn [outcome trace fst snd emit app].
  eauto 6.
Qed.

Lemma TilePlanner_resolves_first E argv :
  Utils_isValidHttpUrl E (TilePlanner.arg_tiles argv) = true ->
  trace (TilePlanner.run E argv) !! 1%nat
  = Some (EFetch (tilesBase (TilePlanner.arg_tiles argv) +:+ "/location?id="
                  +:+ encodeURIComponent (TilePlanner.arg_from argv))).
Proof.
  intros H. unfold TilePlanner.run.
  cbn [TilePlanner.parse TilePlanner.tiles TilePlanner.from TilePlanner.to].
  rewrite H. rewrite !trace_bind. cbn [outcome trace fst snd mret M_ret emit app].
  destruct (trace_fetchLocations_first E
              (tilesBase (TilePlanner.arg_tiles argv) +:+ "/location?id="
               +:+ encodeURIComponent (TilePlanner.arg_from argv))
              (tilesBase (TilePlanner.arg_tiles argv) +:+ "/location?id="
               +:+ encodeURIComponent (TilePlanner.arg_to argv))) as [rest ->].
  reflexivity.
Qed.

Lemma Cli_resolves_first E argv :
  Utils_isValidHttpUrl E (Cli.arg_tiles argv) = true ->
  exists e, trace (Cli.run E argv) !! 1%nat = Some e /\ isResolution e = true.
Proof.
  intros H. unfold Cli.run.
  change (Cli.tiles (Cli.parse argv)) with (Cli.arg_tiles argv).
  rewrite H. rewrite !trace_bind. cbn [outcome trace fst snd mret M_ret app].
  destruct (trace_Cli_resolve_first E (Cli.parse argv) (tilesBase (Cli.arg_tiles argv)))
    as (msg & e & rest & -> & He).
  exists e. split; [reflexivity | exact He].
Qed.




(** ** Location resolution *)

Lemma Cli_resolve_answers E argv v1 v2 :
  viaIndex argv = false ->
  outcome (Cli.resolve E (Cli.parse argv) (tilesBase (Cli.arg_tiles argv))) = inr (v1, v2) ->
  answerTo E (tilesBase (Cli.arg_tiles argv) +:+ "/location/"
              +:+ encodeURIComponent (Cli.arg_from argv)) v1 /\
  answerTo E (tilesBase (Cli.arg_tiles argv) +:+ "/location/"
              +:+ encodeURIComponent (Cli.arg_to argv)) v2.
Proof.
  unfold viaIndex, Cli.resolve. cbn [Cli.parse Cli.index].
  destruct (Cli.arg_index argv) as [[|c file]|]; try done; intros _;
    unfold Cli.resolveRemote; rewrite outcome_bind; cbn;
    apply fetchLocations_answers.
Qed.

(** C6, as the code has it.  TilePlanner.js requests
    [{base}/location?id={id}] and Cli.js requests [{base}/location/{id}],
    each with the identifier passed through [encodeURIComponent]; in both,
    the origin and destination handed to [findPath] are the resolved
    records with [coordinates] set to those of the geometry decoded from
    their [wkt] field, and when the service was asked, the records are
    its answers to those two requests. *)
Theorem location_requests (E : Env) :
  (forall argv,
     Forall (fun e =>
       onFetch (fun url =>
         url = tilesBase (TilePlanner.arg_tiles argv) +:+ "/location?id="
               +:+ encodeURIComponent (TilePlanner.arg_from argv) \/
         url = tilesBase (TilePlanner.arg_tiles argv) +:+ "/location?id="
               +:+ encodeURIComponent (TilePlanner.arg_to argv)) e /\
       onFindPath (fun _ _ FROM TO =>
         exists rawF rawT,
           answerTo E (tilesBase (TilePlanner.arg_tiles argv) +:+ "/location?id="
                       +:+ encodeURIComponent (TilePlanner.arg_from argv)) rawF /\
           decodedFrom E rawF FROM /\
           answerTo E (tilesBase (TilePlanner.arg_tiles argv) +:+ "/location?id="
                       +:+ encodeURIComponent (TilePlanner.arg_to argv)) rawT /\
           decodedFrom E rawT TO) e)
       (trace (TilePlanner.run E argv))) /\
  (forall argv,
     Forall (fun e =>
       onFetch (fun url =>
         url = tilesBase (Cli.arg_tiles argv) +:+ "/location/"
               +:+ encodeURIComponent (Cli.arg_from argv) \/
         url = tilesBase (Cli.arg_tiles argv) +:+ "/location/"
               +:+ encodeURIComponent (Cli.arg_to argv)) e /\
       onFindPath (fun _ _ FROM TO =>
         exists rawF rawT,
           decodedFrom E rawF FROM /\ decodedFrom E rawT TO /\
           if viaIndex argv then True
           else answerTo E (tilesBase (Cli.arg_tiles argv) +:+ "/location/"
                            +:+ encodeURIComponent (Cli.arg_from argv)) rawF /\
                answerTo E (tilesBase (Cli.arg_tiles argv) +:+ "/location/"
                            +:+ encodeURIComponent (Cli.arg_to argv)) rawT) e)
       (trace (Cli.run E argv))).
Proof.
  split; intros argv.
  - unfold TilePlanner.run. run_steps; cbn; try tauto.
    repeat match goal with
           | H : outcome (withCoordinates _ _) = inr _ |- _ =>
               apply withCoordinates_decoded in H
           | H : outcome (fetchLocations _ _ _) = inr _ |- _ =>
               apply fetchLocations_answers in H as [? ?]
           end.
    split; [done|]. eauto 10.
  - unfold Cli.run. run_steps; cbn; try tauto.
    repeat match goal with
           | H : outcome (withCoordinates _ _) = inr _ |- _ =>
               apply withCoordinates_decoded in H
           end.
    split; [done|]. do 2 eexists. split; [eassumption|]. split; [eassumption|].
    destruct (viaIndex argv) eqn:Hvia; [done|].
    by apply Cli_resolve_answers.
Qed.

Lemma location_requests_witness :
  exists rawF rawT,
    answerTo (sampleEnv (inr VNull)) "http://tiles.example/location?id=A" rawF /\
    decodedFrom (sampleEnv (inr VNull)) rawF
      (VObj [("id", VStr "A"); ("label", VStr "Stop A"); ("wkt", VStr "POINT(0 0)");
             ("coordinates", VArr [VNum 0; VNum 0] [])]) /\
    answerTo (sampleEnv (inr VNull)) "http://tiles.example/location?id=B" rawT /\
    decodedFrom (sampleEnv (inr VNull)) rawT
      (VObj [("id", VStr "B"); ("label", VStr "Stop B"); ("wkt", VStr "POINT(3 0)");
             ("coordinates", VArr [VNum 3; VNum 0] [])]).
Proof.
  destruct (location_requests (sampleEnv (inr VNull))) as [HT _].
  pose proof (HT (sampleTilePlannerArgs "http://tiles.example/" None false)) as H.
  eapply Forall_lookup_1 with (i := 7%nat) in H; [|vm_compute; reflexivity].
  exact (proj2 H).
Defined.

(** C6 fails as stated: the location request of Cli.js carries the
    identifier as a path segment, not as the [id] query parameter.  On
    the sample command line it asks for [http://tiles.example/location/A]. *)
Lemma Cli_requests_location_by_path :
  ~ (forall (E : Env) (argv : Cli.Args),
       Forall (onFetch (fun url =>
                 url = tilesBase (Cli.arg_tiles argv) +:+ "/location?id="
                       +:+ encodeURIComponent (Cli.arg_from argv) \/
                 url = tilesBase (Cli.arg_tiles argv) +:+ "/location?id="
                       +:+ encodeURIComponent (Cli.arg_to argv)))
              (trace (Cli.run E argv))).
Proof.
  intros H.
  specialize (H (sampleEnv (inr VNull)) (sampleCliArgs "A" (Some "Dijkstra") None)).
  eapply Forall_lookup_1 with (i := 1%nat) in H; [|vm_compute; reflexivity].
  vm_compute in H. destruct H as [H|H]; discriminate H.
Qed.

Lemma unresolved_not_decoded E raw X :
  unresolved E raw -> outcome (withCoordinates E raw) = inr X -> False.
Proof.
  intros Hu HX. destruct (unresolved_halts E raw Hu) as [h Hh]. congruence.
Qed.




(* ================================================================== *)
(** * 12. The routing engine                                            *)
(* ================================================================== *)

(** ** The tile index *)

Lemma zoomOf_quadrant k dx dy : Engine.zoomOf (Engine.quadrant k dx dy) = S (Engine.zoomOf k).
Proof. by destruct k as [[z x] y]. Qed.

Lemma subdivide_leaves count th depth : forall k k' n,
  In (k', n) (Engine.leaves (Engine.subdivide count th depth k)) ->
  n = count k' /\
  ((n <= th)%nat \/ Engine.zoomOf k' = (Engine.zoomOf k + depth)%nat).
Proof.
  induction depth as [|d IH]; intros k k' n; cbn [Engine.subdivide].
  - cbn. intros [[= <- <-]|[]]. split; [done|]. right. lia.
  - destruct (count k <=? th)%nat eqn:Hle; cbn [Engine.leaves].
    + cbn. intros [[= <- <-]|[]]. apply Nat.leb_le in Hle. tauto.
    + rewrite !in_app_iff.
      intros [H|[H|[H|H]]]; apply IH in H as [-> H];
        rewrite zoomOf_quadrant in H; (split; [done|]);
        destruct H as [H|H]; first [by left | right; lia].
Qed.

(** C9.  Every leaf of the index built by [loadTileQuadTree(threshold)]
    carries the node count of its region, and that count is at most the
    threshold unless the leaf is at the configured maximum zoom. *)
Theorem quadtree_leaves_within_threshold (cfg : Engine.Config) (th : nat)
    (qt : Engine.QuadTree) (k : nat * Z * Z) (n : nat) :
  (Engine.zoomOf (Engine.rootTile cfg) <= Engine.maxZoom cfg)%nat ->
  Engine.loadTileQuadTree cfg (Some th) = Some qt ->
  In (k, n) (Engine.leaves qt) ->
  n = Engine.tileCount cfg k /\
  ((n <= th)%nat \/ Engine.zoomOf k = Engine.maxZoom cfg).
Proof.
  intros Hroot [= <-] Hin. apply subdivide_leaves in Hin as [-> H].
  split; [done|]. destruct H as [H|H]; [by left | right; lia].
Qed.

Lemma quadtree_leaves_within_threshold_witness :
  (0 <= 2)%nat /\
  (5%nat = Engine.tileCount Engine.equatorConfig (2%nat, 0, 0) /\
   ((5 <= 2)%nat \/ Engine.zoomOf (2%nat, 0, 0) = 2%nat)) /\
  (0%nat = Engine.tileCount Engine.equatorConfig (1%nat, 1, 0) /\
   ((0 <= 2)%nat \/ Engine.zoomOf (1%nat, 1, 0) = 2%nat)).
Proof.
  assert (Engine.zoomOf (Engine.rootTile Engine.equatorConfig) <= Engine.maxZoom Engine.equatorConfig)%nat
    as Hroot by (cbn; lia).
  split; [lia|]. split.
  - eapply (quadtree_leaves_within_threshold Engine.equatorConfig 2); [exact Hroot | reflexivity |].
    vm_compute. left. reflexivity.
  - eapply (quadtree_leaves_within_threshold Engine.equatorConfig 2); [exact Hroot | reflexivity |].
    vm_compute. do 4 right. left. reflexivity.
Defined.

(** ** Determinism *)

Lemma iterate_more {S : Type} (step : S -> Engine.Outcome + S) (fuel : nat) :
  forall (s : S) (fuel' : nat),
    Engine.finished (Engine.iterate step fuel s) = true ->
    (fuel <= fuel')%nat ->
    Engine.iterate step fuel' s = Engine.iterate step fuel s.
Proof.
  induction fuel as [|n IH]; intros s fuel' Hfin Hle; [done|].
  destruct fuel' as [|n']; [lia|]. cbn in *.
  destruct (step s) as [r|s']; [done|]. apply IH; [done | lia].
Qed.

Lemma iterate_ext {S : Type} (step1 step2 : S -> Engine.Outcome + S) :
  (forall s, step1 s = step2 s) ->
  forall fuel s, Engine.iterate step1 fuel s = Engine.iterate step2 fuel s.
Proof.
  intros Hstep fuel. induction fuel as [|n IH]; intros s; cbn; [done|].
  rewrite Hstep. destruct (step2 s); [done | apply IH].
Qed.

Lemma fold_left_ext_fun {A B : Type} (f g : A -> B -> A) :
  (forall a b, f a b = g a b) -> forall l a, fold_left f l a = fold_left g l a.
Proof.
  intros Hfg l. induction l as [|b l IH]; intros a; cbn; [done|].
  by rewrite Hfg, IH.
Qed.

Section SameService.
Variables c1 c2 : Engine.Config.
Hypothesis same : Engine.sameService c1 c2.

Lemma ensureTileLoaded_same k st :
  Engine.ensureTileLoaded c1 k st = Engine.ensureTileLoaded c2 k st.
Proof. unfold Engine.ensureTileLoaded. by rewrite (Engine.same_tileSource _ _ same). Qed.

Lemma ensureTilesLoaded_same ks : forall st,
  Engine.ensureTilesLoaded c1 ks st = Engine.ensureTilesLoaded c2 ks st.
Proof.
  induction ks as [|k ks IH]; intros st; cbn; [done|].
  rewrite ensureTileLoaded_same. destruct (Engine.ensureTileLoaded c2 k st); [done | apply IH].
Qed.

Lemma covers_same c k : Engine.covers c1 c k = Engine.covers c2 c k.
Proof.
  unfold Engine.covers. destruct k as [[z x] y].
  by rewrite (Engine.same_tileOf _ _ same).
Qed.

Lemma leafZoom_same c t : Engine.leafZoom c1 c t = Engine.leafZoom c2 c t.
Proof.
  induction t as [k n | k n nw IHnw ne IHne sw IHsw se IHse]; cbn.
  - by rewrite covers_same.
  - by rewrite covers_same, IHnw, IHne, IHsw, IHse.
Qed.

Lemma zoomAt_same qt c : Engine.zoomAt c1 qt c = Engine.zoomAt c2 qt c.
Proof.
  unfold Engine.zoomAt. destruct qt as [t|]; [|apply (Engine.same_zoom _ _ same)].
  by rewrite leafZoom_same, (Engine.same_zoom _ _ same).
Qed.

Lemma ensureRegionLoaded_same qt c st :
  Engine.ensureRegionLoaded c1 qt c st = Engine.ensureRegionLoaded c2 qt c st.
Proof.
  unfold Engine.ensureRegionLoaded, Engine.tilesAround.
  rewrite zoomAt_same, (Engine.same_tileOf _ _ same).
  apply ensureTilesLoaded_same.
Qed.

Lemma subdivide_same th depth : forall k,
  Engine.subdivide (Engine.tileCount c1) th depth k
  = Engine.subdivide (Engine.tileCount c2) th depth k.
Proof.
  induction depth as [|d IH]; intros k; cbn;
    rewrite (Engine.same_tileCount _ _ same); [done|].
  by rewrite !IH.
Qed.

Lemma loadTileQuadTree_same th :
  Engine.loadTileQuadTree c1 th = Engine.loadTileQuadTree c2 th.
Proof.
  unfold Engine.loadTileQuadTree. destruct th as [th|]; [|done].
  by rewrite subdivide_same, (Engine.same_maxZoom _ _ same),
       (Engine.same_rootTile _ _ same).
Qed.

Lemma relax_same h1 h2 u w v f :
  (forall n, h1 n = h2 n) -> Engine.relax h1 u w v f = Engine.relax h2 u w v f.
Proof. intros Hh. unfold Engine.relax. by rewrite Hh. Qed.

Lemma visit_same d h1 h2 g origin dest f edge :
  (forall n, h1 n = h2 n) ->
  Engine.visit c1 d h1 g origin dest f edge = Engine.visit c2 d h2 g origin dest f edge.
Proof.
  intros Hh. unfold Engine.visit. destruct edge as [u t].
  destruct (Engine.getNode g t) as [v|]; [|done].
  rewrite (relax_same h1 h2) by done. f_equal.
  unfold Engine.edgeCost. destruct d; apply (Engine.same_distance _ _ same).
Qed.

Lemma expand_same d h1 h2 g origin dest u f :
  (forall n, h1 n = h2 n) ->
  Engine.expand c1 d h1 g origin dest u f = Engine.expand c2 d h2 g origin dest u f.
Proof.
  intros Hh. unfold Engine.expand. apply fold_left_ext_fun.
  intros a b. by apply visit_same.
Qed.

Lemma searchStep_same qt h1 h2 origin dest s :
  (forall n, h1 n = h2 n) ->
  Engine.searchStep c1 qt h1 origin dest s = Engine.searchStep c2 qt h2 origin dest s.
Proof.
  intros Hh. unfold Engine.searchStep.
  destruct (Engine.top _) as [u|]; [|done].
  destruct (String.eqb _ _); [done|].
  rewrite ensureRegionLoaded_same.
  destruct (Engine.ensureRegionLoaded c2 _ _ _) as [e|st]; [done|].
  by rewrite (expand_same _ h1 h2).
Qed.

Lemma search_same qt h1 h2 origin dest fuel :
  (forall n, h1 n = h2 n) ->
  Engine.search c1 qt h1 origin dest fuel = Engine.search c2 qt h2 origin dest fuel.
Proof.
  intros Hh. unfold Engine.search. destruct (String.eqb _ _); [done|].
  unfold Engine.initFrontier. rewrite Hh.
  apply iterate_ext. intros s. by apply searchStep_same.
Qed.

Lemma nbaStep_same qt p origin dest s :
  Engine.nbaStep c1 qt p origin dest s = Engine.nbaStep c2 qt p origin dest s.
Proof.
  unfold Engine.nbaStep.
  destruct (Engine.top _) as [ft|]; [|done].
  destruct (Engine.top _) as [bt|]; [|done].
  destruct (Engine.shouldStop _ _ _); [done|].
  rewrite ensureRegionLoaded_same.
  destruct (Engine.ensureRegionLoaded c2 _ _ _) as [e|st]; [done|].
  destruct (Engine.choose p s ft bt);
    by rewrite (expand_same _ _ (fun n => Engine.heuristic c2 n _))
      by (intros; apply (Engine.same_heuristic _ _ same)).
Qed.

Lemma findPath_same a qt origin dest fuel :
  Engine.findPath a c1 qt origin dest fuel = Engine.findPath a c2 qt origin dest fuel.
Proof.
  destruct a as [| |p]; cbn.
  - by apply search_same.
  - apply search_same. intros n. apply (Engine.same_heuristic _ _ same).
  - unfold Engine.NBAStar_findPath. destruct (String.eqb _ _); [done|].
    unfold Engine.initFrontier. rewrite !(Engine.same_heuristic _ _ same).
    apply iterate_ext. intros s. apply nbaStep_same.
Qed.
End SameService.

Lemma findPath_more a cfg qt origin dest fuel fuel' :
  Engine.finished (Engine.findPath a cfg qt origin dest fuel) = true ->
  (fuel <= fuel')%nat ->
  Engine.findPath a cfg qt origin dest fuel' = Engine.findPath a cfg qt origin dest fuel.
Proof.
  destruct a as [| |p]; cbn;
    unfold Engine.Dijkstra_findPath, Engine.AStar_findPath, Engine.NBAStar_findPath,
      Engine.search;
    destruct (String.eqb _ _); try done; apply iterate_more.
Qed.


Lemma sameService_refl (c : Engine.Config) : Engine.sameService c c.
Proof. by constructor. Qed.


(** ** The three strategies on one query *)


(** The same network, queried from [A]: here all three strategies agree
    on the route [A, B, T] of cost 23. *)
Example strategies_agree_from_A (a : Engine.Algorithm) :
  exists r,
    Engine.findPath a Engine.equatorConfig None
      (Engine.stop "A" (-1)) (Engine.stop "T" 20) 10 = Engine.Found r /\
    List.map Engine.id (Engine.path r) = ["A"; "B"; "T"] /\
    Engine.totalCost r = 23.
Proof.
  destruct a as [| |[[]|[]|[]]];
    (eexists; split; [vm_compute; reflexivity | vm_compute; split; reflexivity]).
Qed.

(* ================================================================== *)
(** * 13. Further properties of the two scripts                         *)
(* ================================================================== *)

(** ** The identifier inside the request URL *)

Lemma hexDigit_unreserved (n : N) : uriUnreserved (hexDigit n) = true.
Proof. unfold hexDigit. repeat case_match; reflexivity. Qed.

Lemma encodeURIComponent_alphabet (s : string) :
  Forall (fun c => uriUnreserved c = true \/ c = "%"%char)
         (list_ascii_of_string (encodeURIComponent s)).
Proof.
  induction s as [|c s IH]; cbn [encodeURIComponent]; [constructor|].
  destruct (uriUnreserved c) eqn:Hc; cbn [list_ascii_of_string].
  - constructor; [by left | exact IH].
  - constructor; [by right|].
    constructor; [left; apply hexDigit_unreserved|].
    constructor; [left; apply hexDigit_unreserved | exact IH].
Qed.

(** X1.  Whatever the identifier, its encoded form contains none of the
    characters that structure a URL (slash, question mark, hash,
    ampersand, equals sign) and no space: inside the request URL of
    either script it stays one path segment, or one query value. *)
Theorem encoded_identifier_is_one_token (s : string) :
  Forall (fun c => c <> "/" /\ c <> "?" /\ c <> "#" /\ c <> "&" /\ c <> "=" /\ c <> " ")%char
         (list_ascii_of_string (encodeURIComponent s)).
Proof.
  eapply Forall_impl; [apply encodeURIComponent_alphabet|].
  intros c [Hc | ->]; [|repeat split; discriminate].
  repeat split; intros ->; discriminate Hc.
Qed.

Lemma hexDigit_inj (a b : N) :
  (a < 16)%N -> (b < 16)%N -> hexDigit a = hexDigit b -> a = b.
Proof.
  intros Ha Hb.
  assert (a = 0 \/ a = 1 \/ a = 2 \/ a = 3 \/ a = 4 \/ a = 5 \/ a = 6 \/ a = 7 \/
          a = 8 \/ a = 9 \/ a = 10 \/ a = 11 \/ a = 12 \/ a = 13 \/ a = 14 \/ a = 15)%N
    as HA by lia.
  assert (b = 0 \/ b = 1 \/ b = 2 \/ b = 3 \/ b = 4 \/ b = 5 \/ b = 6 \/ b = 7 \/
          b = 8 \/ b = 9 \/ b = 10 \/ b = 11 \/ b = 12 \/ b = 13 \/ b = 14 \/ b = 15)%N
    as HB by lia.
  clear Ha Hb.
  repeat (destruct HA as [->|HA]); try subst a;
    repeat (destruct HB as [->|HB]); try subst b; cbn; congruence.
Qed.

Lemma encode_byte_inj (c d : ascii) :
  hexDigit (N_of_ascii c / 16) = hexDigit (N_of_ascii d / 16) ->
  hexDigit (N_of_ascii c mod 16) = hexDigit (N_of_ascii d mod 16) ->
  c = d.
Proof.
  intros Hh Hl.
  pose proof (N_ascii_bounded c) as Hc. pose proof (N_ascii_bounded d) as Hd.
  apply hexDigit_inj in Hh; [| apply N.Div0.div_lt_upper_bound; lia ..].
  apply hexDigit_inj in Hl; [| apply N.mod_lt; lia ..].
  assert (N_of_ascii c = N_of_ascii d) as Heq.
  { rewrite (N.div_mod (N_of_ascii c) 16), (N.div_mod (N_of_ascii d) 16) by lia.
    by rewrite Hh, Hl. }
  rewrite <- (ascii_N_embedding c), <- (ascii_N_embedding d). by rewrite Heq.
Qed.

Lemma encodeURIComponent_inj (s t : string) :
  encodeURIComponent s = encodeURIComponent t -> s = t.
Proof.
  revert t. induction s as [|c s IH]; intros [|d t]; cbn [encodeURIComponent].
  - done.
  - destruct (uriUnreserved d); discriminate.
  - destruct (uriUnreserved c); discriminate.
  - destruct (uriUnreserved c) eqn:Hc, (uriUnreserved d) eqn:Hd.
    + intros [= -> H]. f_equal. by apply IH.
    + intros [= -> _]. discriminate Hc.
    + intros [= <- _]. discriminate Hd.
    + intros [= Hh Hl H]. f_equal; [by apply encode_byte_inj | by apply IH].
Qed.

Lemma append_cancel_l (p a b : string) : p +:+ a = p +:+ b -> a = b.
Proof. induction p as [|c p IH]; cbn; [done|]. intros [= H]. by apply IH. Qed.

(** X2.  Two different identifiers never give the same location request:
    for one base URL, the request URL of TilePlanner.js and that of
    Cli.js are injective in the identifier. *)
Theorem distinct_identifiers_distinct_requests (base id1 id2 : string) :
  id1 <> id2 ->
  base +:+ "/location?id=" +:+ encodeURIComponent id1
  <> base +:+ "/location?id=" +:+ encodeURIComponent id2 /\
  base +:+ "/location/" +:+ encodeURIComponent id1
  <> base +:+ "/location/" +:+ encodeURIComponent id2.
Proof.
  intros Hne. split; intros H; apply Hne, encodeURIComponent_inj;
    by do 2 apply append_cancel_l in H.
Qed.

Lemma distinct_identifiers_distinct_requests_witness :
  "http://tiles.example" +:+ "/location?id=" +:+ encodeURIComponent "stop 1"
  <> "http://tiles.example" +:+ "/location?id=" +:+ encodeURIComponent "stop%201" /\
  "http://tiles.example" +:+ "/location/" +:+ encodeURIComponent "stop 1"
  <> "http://tiles.example" +:+ "/location/" +:+ encodeURIComponent "stop%201".
Proof.
  apply (distinct_identifiers_distinct_requests "http://tiles.example" "stop 1" "stop%201").
  discriminate.
Defined.

(** X3.  An identifier made only of letters, digits and the marks
    [- _ . ! ~ * ' ( )] is sent as it is. *)
Theorem plain_identifier_is_sent_unchanged (s : string) :
  forallb uriUnreserved (list_ascii_of_string s) = true ->
  encodeURIComponent s = s.
Proof.
  induction s as [|c s IH]; cbn; [done|].
  intros H. apply andb_true_iff in H as [Hc Hs]. rewrite Hc. f_equal. by apply IH.
Qed.

Lemma plain_identifier_is_sent_unchanged_witness :
  encodeURIComponent "Gent-Sint-Pieters_(8892007)" = "Gent-Sint-Pieters_(8892007)".
Proof. apply plain_identifier_is_sent_unchanged. reflexivity. Defined.

(** ** The resolved record *)

Lemma lookupProp_assignProp_eq k x props :
  lookupProp k (assignProp k x props) = x.
Proof.
  unfold lookupProp. induction props as [|[k' y] props IH]; cbn.
  - by rewrite String.eqb_refl.
  - destruct (String.eqb k' k) eqn:Hk; cbn.
    + by rewrite String.eqb_refl.
    + by rewrite Hk.
Qed.

Lemma lookupProp_assignProp_ne k k' x props :
  k' <> k -> lookupProp k' (assignProp k x props) = lookupProp k' props.
Proof.
  intros Hne. unfold lookupProp.
  assert (String.eqb k k' = false) as Hkk by (apply String.eqb_neq; congruence).
  induction props as [|[k0 y] props IH]; cbn.
  - by rewrite Hkk.
  - destruct (String.eqb k0 k) eqn:Hk; cbn.
    + apply String.eqb_eq in Hk as ->. by rewrite Hkk.
    + destruct (String.eqb k0 k'); [done | exact IH].
Qed.

Lemma setProp_getProp_eq v k x v' :
  setProp v k x = inr v' -> getProp v' k = inr x.
Proof.
  destruct v; cbn; try done.
  - destruct (String.eqb k "length") eqn:Hk; [done|]. intros [= <-]. cbn.
    by rewrite Hk, lookupProp_assignProp_eq.
  - intros [= <-]. cbn. by rewrite lookupProp_assignProp_eq.
Qed.

Lemma setProp_getProp_ne v k k' x v' :
  k' <> k -> setProp v k x = inr v' -> getProp v' k' = getProp v k'.
Proof.
  intros Hne. destruct v; cbn; try done.
  - destruct (String.eqb k "length") eqn:Hk; [done|]. intros [= <-]. cbn.
    destruct (String.eqb k' "length"); [done|].
    by rewrite lookupProp_assignProp_ne.
  - intros [= <-]. cbn. by rewrite lookupProp_assignProp_ne.
Qed.

(** X4.  When [X.coordinates = wktParse(X.wkt).coordinates] succeeds, the
    record afterwards reads back, under [coordinates], exactly what the
    decoded geometry has there (an earlier [coordinates] is overwritten),
    and every other property ([id], [label], [wkt], ...) reads as
    before. *)
Theorem withCoordinates_keeps_record (E : Env) (raw X : value) :
  outcome (withCoordinates E raw) = inr X ->
  (exists wkt geometry,
     getProp raw "wkt" = inr wkt /\ wktParse E wkt = inr geometry /\
     getProp X "coordinates" = getProp geometry "coordinates") /\
  (forall k, k <> "coordinates" -> getProp X k = getProp raw k).
Proof.
  intros H. apply withCoordinates_decoded in H as (wkt & g & c & Hw & Hg & Hc & Hs).
  split.
  - exists wkt, g. rewrite Hc. eauto using setProp_getProp_eq.
  - intros k Hk. eapply setProp_getProp_ne; eauto.
Qed.

Lemma withCoordinates_keeps_record_witness :
  getProp (VObj [("id", VStr "A"); ("label", VStr "Stop A"); ("wkt", VStr "POINT(0 0)");
                 ("coordinates", VArr [VNum 0; VNum 0] [])]) "id"
  = getProp (VObj [("id", VStr "A"); ("label", VStr "Stop A"); ("wkt", VStr "POINT(0 0)");
                   ("coordinates", VStr "stale")]) "id".
Proof.
  apply (withCoordinates_keeps_record (sampleEnv (inr VNull))); [reflexivity | discriminate].
Defined.

(** ** The local index *)

Lemma mapGet_app entries kv k :
  Cli.mapGet (entries ++ [kv]) k
  = if keyIs k kv then snd kv else Cli.mapGet entries k.
Proof.
  unfold Cli.mapGet, keyIs. rewrite fold_left_app. cbn.
  destruct (fst kv); try done.
Qed.

Lemma mapGet_absent entries k :
  Forall (fun kv => keyIs k kv = false) entries -> Cli.mapGet entries k = VUndefined.
Proof.
  induction entries as [|kv entries IH] using rev_ind; [done|].
  intros H. apply Forall_app in H as [H1 H2]. apply Forall_cons in H2 as [H2 _].
  rewrite mapGet_app, H2. by apply IH.
Qed.

Lemma mapGet_last entries1 entries2 k v :
  Forall (fun kv => keyIs k kv = false) entries2 ->
  Cli.mapGet (entries1 ++ (VStr k, v) :: entries2) k = v.
Proof.
  induction entries2 as [|kv entries2 IH] using rev_ind; intros H.
  - rewrite mapGet_app. unfold keyIs. cbn. by rewrite String.eqb_refl.
  - apply Forall_app in H as [H1 H2]. apply Forall_cons in H2 as [H2 _].
    rewrite app_comm_cons, app_assoc, mapGet_app, H2. by apply IH.
Qed.

Lemma newMap_jsonIndex kvs :
  Cli.newMap (jsonIndex kvs) = inr (List.map (fun kv => (VStr (fst kv), snd kv)) kvs).
Proof.
  unfold jsonIndex. cbn. induction kvs as [|[k v] kvs IH]; cbn; [done|].
  by rewrite IH.
Qed.

Lemma unlisted_keyIs id kvs :
  unlisted id kvs = true ->
  Forall (fun kv => keyIs id kv = false)
         (List.map (fun kv => (VStr (fst kv), snd kv)) kvs).
Proof.
  unfold unlisted. induction kvs as [|[k v] kvs IH]; cbn; [constructor|].
  intros H. apply andb_true_iff in H as [Hk Hs]. constructor; [|by apply IH].
  unfold keyIs. cbn. by apply negb_true_iff.
Qed.



(** ** The printed path *)

Lemma TilePlanner_describeFrom_lines E : forall ps i path linestring,
  TilePlanner.describeFrom E i ps = inr (path, linestring) ->
  List.length path = List.length ps /\ List.length linestring = List.length ps /\
  forall k p, ps !! k = Some p ->
    exists id c c0 c1,
      getProp p "id" = inr id /\ getProp p "coordinates" = inr c /\
      getIndex c 0 = inr c0 /\ getIndex c 1 = inr c1 /\
      path !! k = Some (pretty (i + k + 1)%nat +:+ ". " +:+ toString (showNumber E) id) /\
      linestring !! k
      = Some (toString (showNumber E) c0 +:+ " " +:+ toString (showNumber E) c1).
Proof.
  induction ps as [|p ps IH]; intros i path linestring; cbn.
  - intros [= <- <-]. repeat split; intros k p H; done.
  - destruct (TilePlanner.describeStep E i p) as [e|[a b]] eqn:Hstep; [done|].
    destruct (TilePlanner.describeFrom E (S i) ps) as [e|[pa li]] eqn:Hrest; [done|].
    intros [= <- <-]. apply IH in Hrest as (H1 & H2 & H3).
    cbn. repeat split; [lia | lia |].
    intros [|k] q Hq; cbn in Hq.
    + injection Hq as <-. unfold TilePlanner.describeStep in Hstep.
      destruct (getProp p "id") as [e|id]; [done|].
      destruct (getProp p "coordinates") as [e|c]; [done|].
      destruct (getIndex c 0) as [e|c0] eqn:H0; [done|].
      destruct (getIndex c 1) as [e|c1] eqn:H1'; [done|].
      injection Hstep as <- <-. exists id, c, c0, c1. repeat split; try done.
      cbn. by replace (i + 0 + 1)%nat with (i + 1)%nat by lia.
    + destruct (H3 k q Hq) as (id & c & c0 & c1 & Hid & Hc & Hc0 & Hc1 & Hk & Hl).
      exists id, c, c0, c1. repeat split; try done.
      change ((a :: pa) !! S k) with (pa !! k). rewrite Hk.
      by replace (S i + k + 1)%nat with (i + S k + 1)%nat by lia.
Qed.

(** X6.  When the [forEach] of TilePlanner.js goes through, the result's
    [path] is an array, and the two lists built have one entry per
    element, in order: entry [k] of the first is [k+1], a dot, a space
    and the element's [id]; entry [k] of the second is the element's
    first two coordinates separated by a space. *)
Theorem TilePlanner_path_lines (E : Env) (shortestPath : value)
    (path linestring : list string) :
  TilePlanner.describePath E shortestPath = inr (path, linestring) ->
  exists elems props,
    getProp shortestPath "path" = inr (VArr elems props) /\
    List.length path = List.length elems /\
    List.length linestring = List.length elems /\
    forall k p, elems !! k = Some p ->
      exists id c c0 c1,
        getProp p "id" = inr id /\ getProp p "coordinates" = inr c /\
        getIndex c 0 = inr c0 /\ getIndex c 1 = inr c1 /\
        path !! k = Some (pretty (k + 1)%nat +:+ ". " +:+ toString (showNumber E) id) /\
        linestring !! k
        = Some (toString (showNumber E) c0 +:+ " " +:+ toString (showNumber E) c1).
Proof.
  unfold TilePlanner.describePath.
  destruct (getProp shortestPath "path") as [e|[]] eqn:Hp; try done.
  intros Hd. apply TilePlanner_describeFrom_lines in Hd as (H1 & H2 & H3).
  exists elems, props. repeat split; try done.
Qed.

Lemma TilePlanner_path_lines_witness :
  exists elems props,
    getProp samplePathResult "path" = inr (VArr elems props) /\
    List.length ["1. A"; "2. B"] = List.length elems /\
    List.length ["0 0"; "3 0"] = List.length elems /\
    forall k p, elems !! k = Some p ->
      exists id c c0 c1,
        getProp p "id" = inr id /\ getProp p "coordinates" = inr c /\
        getIndex c 0 = inr c0 /\ getIndex c 1 = inr c1 /\
        ["1. A"; "2. B"] !! k
        = Some (pretty (k + 1)%nat +:+ ". "
                +:+ toString (showNumber (sampleEnv (inr VNull))) id) /\
        ["0 0"; "3 0"] !! k
        = Some (toString (showNumber (sampleEnv (inr VNull))) c0 +:+ " "
                +:+ toString (showNumber (sampleEnv (inr VNull))) c1).
Proof.
  apply (TilePlanner_path_lines (sampleEnv (inr VNull)) samplePathResult).
  vm_compute. reflexivity.
Defined.

Lemma Cli_describeFrom_spec E : forall ps i lines,
  Cli.describeFrom E i ps = inr lines ->
  List.length lines = List.length ps /\
  forall k p, ps !! k = Some p ->
    exists id, getProp p "id" = inr id /\
      lines !! k = Some (VStr (pretty (i + k + 1)%nat +:+ ". " +:+ toString (showNumber E) id)).
Proof.
  induction ps as [|p ps IH]; intros i lines; cbn.
  - intros [= <-]. split; [done|]. intros k p H; done.
  - destruct (Cli.describeStep E i p) as [e|a] eqn:Hstep; [done|].
    destruct (Cli.describeFrom E (S i) ps) as [e|l] eqn:Hrest; [done|].
    intros [= <-]. apply IH in Hrest as (H1 & H3).
    cbn. split; [lia|].
    intros [|k] q Hq; cbn in Hq.
    + injection Hq as <-. unfold Cli.describeStep in Hstep.
      destruct (getProp p "id") as [e|id]; [done|]. exists id. split; [done|].
      injection Hstep as <-. cbn.
      by replace (i + 0 + 1)%nat with (i + 1)%nat by lia.
    + destruct (H3 k q Hq) as (id & Hid & Hk). exists id. split; [done|].
      change ((a :: l) !! S k) with (l !! k). rewrite Hk.
      by replace (S i + k + 1)%nat with (i + S k + 1)%nat by lia.
Qed.

Lemma Cli_describePath_spec E path lines :
  Cli.describePath E path = inr lines ->
  exists elems props l,
    path = VArr elems props /\ lines = VArr l [] /\
    List.length l = List.length elems /\
    forall k p, elems !! k = Some p ->
      exists id, getProp p "id" = inr id /\
        l !! k = Some (VStr (pretty (k + 1)%nat +:+ ". " +:+ toString (showNumber E) id)).
Proof.
  unfold Cli.describePath. destruct path; try done.
  destruct (Cli.describeFrom E 0 elems) as [e|l] eqn:Hd; [done|]. intros [= <-].
  apply Cli_describeFrom_spec in Hd as [H1 H2]. exists elems, props, l.
  repeat split; try done.
Qed.

(** X7.  When the [path.map] of Cli.js goes through, the result of
    [findPath] is itself an array (not an object holding one), and the
    array printed has one string per element, in order: [k+1], a dot, a
    space and the element's [id]. *)
Theorem Cli_path_lines (E : Env) (path lines : value) :
  Cli.describePath E path = inr lines ->
  exists elems props l,
    path = VArr elems props /\ lines = VArr l [] /\
    List.length l = List.length elems /\
    forall k p, elems !! k = Some p ->
      exists id, getProp p "id" = inr id /\
        l !! k = Some (VStr (pretty (k + 1)%nat +:+ ". " +:+ toString (showNumber E) id)).
Proof.
  unfold Cli.describePath. destruct path; try discriminate.
  destruct (Cli.describeFrom E 0 elems) as [e|l] eqn:Hd; [discriminate|].
  intros [= <-]. apply Cli_describeFrom_spec in Hd as [Hlen Hlines].
  exists elems, props, l. repeat split; [exact Hlen | exact Hlines].
Qed.

Lemma Cli_path_lines_witness :
  exists elems props l,
    samplePathArray = VArr elems props /\
    VArr [VStr "1. A"; VStr "2. B"] [] = VArr l [] /\
    List.length l = List.length elems /\
    forall k p, elems !! k = Some p ->
      exists id, getProp p "id" = inr id /\
        l !! k = Some (VStr (pretty (k + 1)%nat +:+ ". "
                             +:+ toString (showNumber (sampleEnv (inr VNull))) id)).
Proof.
  apply (Cli_path_lines (sampleEnv (inr VNull)) samplePathArray).
  vm_compute. reflexivity.
Defined.

(** ** The report of TilePlanner.js *)

Lemma truthy_getProp v k : truthy v = true -> exists x, getProp v k = inr x.
Proof.
  destruct v; cbn; try done; eauto.
  - destruct (String.eqb k "length"); eauto.
  - destruct (String.eqb k "length"); eauto.
Qed.

Lemma TilePlanner_report_cases (E : Env) (shortestPath : value) :
  (truthy shortestPath = false /\
   TilePlanner.report E shortestPath
   = ([EConsoleLog [VStr "No path was found :("]], inr tt)) \/
  (exists e,
     truthy shortestPath = true /\
     TilePlanner.describePath E shortestPath = inl e /\
     TilePlanner.report E shortestPath = ([], inl (Throw e))) \/
  (exists path linestring metadata,
     truthy shortestPath = true /\
     TilePlanner.describePath E shortestPath = inr (path, linestring) /\
     getProp shortestPath "metadata" = inr metadata /\
     TilePlanner.report E shortestPath
     = ([EConsoleLog [VStr "SHORTEST PATH found: ";
                      VStr (JSON_stringify E (VArr (List.map VStr path) []))];
         EConsoleLog [VStr ("LINESTRING(" +:+ joinWith "," linestring +:+ ")")];
         EConsoleLog [VStr "SHORTEST PATH metadata: "; metadata]],
        inr tt)).
Proof.
  unfold TilePlanner.report. destruct (truthy shortestPath) eqn:Ht; [|by left].
  right. destruct (TilePlanner.describePath E shortestPath) as [e|[path linestring]] eqn:Hd.
  - left. by exists e.
  - right. destruct (truthy_getProp shortestPath "metadata" Ht) as [md Hmd].
    exists path, linestring, md. by rewrite Hmd.
Qed.

(** X8.  The report of TilePlanner.js is all or nothing.  It prints the
    single no-path line (any falsy result), or nothing at all and dies
    with the error met while walking the path, or all three result lines
    and returns; once the path has been walked nothing can fail any
    more, so the lines are never printed in part. *)
Theorem TilePlanner_report_all_or_nothing (E : Env) (shortestPath : value) :
  List.length (trace (TilePlanner.report E shortestPath)) = 1%nat /\
    truthy shortestPath = false /\ outcome (TilePlanner.report E shortestPath) = inr tt \/
  List.length (trace (TilePlanner.report E shortestPath)) = 0%nat /\
    truthy shortestPath = true /\
    (exists e, TilePlanner.describePath E shortestPath = inl e /\
               outcome (TilePlanner.report E shortestPath) = inl (Throw e)) \/
  List.length (trace (TilePlanner.report E shortestPath)) = 3%nat /\
    truthy shortestPath = true /\ outcome (TilePlanner.report E shortestPath) = inr tt.
Proof.
  destruct (TilePlanner_report_cases E shortestPath)
    as [[Ht Hr]|[(e & Ht & Hd & Hr)|(p & l & md & Ht & Hd & Hmd & Hr)]]; rewrite Hr; cbn.
  - by left.
  - right. left. eauto.
  - right. by right.
Qed.

(** ** The order of events in a run *)

Lemma TilePlannerShape_prelude sel th pre t :
  Forall (fun e => isPrelude e = true) pre ->
  TilePlannerShape sel th t -> TilePlannerShape sel th (pre ++ t).
Proof.
  intros Hpre (p & post & -> & Hp & Hpost).
  exists (pre ++ p), post. split; [by rewrite app_assoc|].
  split; [by apply Forall_app | done].
Qed.

Lemma TilePlannerShape_nil sel th : TilePlannerShape sel th [].
Proof. exists [], []. repeat split; [constructor | by left]. Qed.

Lemma TilePlannerShape_bind {A B} sel th (m : M A) (f : A -> M B) :
  Forall (fun e => isPrelude e = true) (trace m) ->
  (forall a, outcome m = inr a -> TilePlannerShape sel th (trace (f a))) ->
  TilePlannerShape sel th (trace (m ≫= f)).
Proof.
  intros Hm Hf. rewrite trace_bind. apply TilePlannerShape_prelude; [done|].
  destruct (outcome m) as [h|a]; [apply TilePlannerShape_nil | by apply Hf].
Qed.

(** X9.  Every run of TilePlanner.js, however it ends, has one shape:
    log lines, location requests and the fresh graph; then either nothing
    more, or the construction of the engine the [switch] selects for the
    command line, followed at once by [loadTileQuadTree] with the
    [--threshold] value, then (if that returned) one [findPath] on the
    same engine and configuration, then console output only.  So there is
    at most one engine, at most one search, and no request or log line
    after the engine exists. *)
Theorem TilePlanner_protocol (E : Env) (argv : TilePlanner.Args) :
  TilePlannerShape
    (TilePlanner.selectEngine (TilePlanner.parse argv)
       (tilesBase (TilePlanner.arg_tiles argv)))
    (TilePlanner.arg_threshold argv)
    (trace (TilePlanner.run E argv)).
Proof.
  unfold TilePlanner.run.
  change (TilePlanner.tiles (TilePlanner.parse argv)) with (TilePlanner.arg_tiles argv).
  change (TilePlanner.threshold (TilePlanner.parse argv)) with (TilePlanner.arg_threshold argv).
  repeat (apply TilePlannerShape_bind;
          [run_steps; reflexivity | intros ? ?];
          try match goal with
              | |- TilePlannerShape _ _ (trace (let '(_, _) := ?x in _)) => destruct x
              end).
  destruct (TilePlanner.selectEngine _ _) as [[cls cfg]|] eqn:Hsel;
    [|apply TilePlannerShape_nil].
  rewrite !trace_bind. cbn [trace outcome fst snd emit app].
  destruct (engine_loadTileQuadTree E cls cfg _) as [e|[]];
    cbn [trace outcome fst snd emit lift throw mret M_ret app].
  { exists [], [ENew cls cfg; ELoadTileQuadTree cls (TilePlanner.arg_threshold argv)].
    split; [done|]. split; [constructor|]. right. exists cls, cfg. eauto. }
  destruct (engine_findPath E cls cfg _ _ _) as [e|sp];
    cbn [trace outcome fst snd emit lift throw mret M_ret app].
  - exists []. eexists. split; [reflexivity|]. split; [constructor|].
    right. exists cls, cfg. split; [done|]. right. do 2 eexists. exists [].
    split; [reflexivity | constructor].
  - exists []. eexists. split; [reflexivity|]. split; [constructor|].
    right. exists cls, cfg. split; [done|]. right. do 3 eexists.
    split; [reflexivity|]. apply Forall_TilePlanner_report. reflexivity.
Qed.

Lemma CliShape_bind {A B} sel (m : M A) (f : A -> M B) :
  Forall (fun e => isPrelude e = true) (trace m) ->
  (forall a, outcome m = inr a -> CliShape sel (trace (f a))) ->
  CliShape sel (trace (m ≫= f)).
Proof.
  intros Hm Hf. rewrite trace_bind.
  assert (forall t, CliShape sel t -> CliShape sel (trace m ++ t)) as Hpre.
  { intros t (p & post & -> & Hp & Hpost). exists (trace m ++ p), post.
    split; [by rewrite app_assoc|]. split; [by apply Forall_app | done]. }
  apply Hpre. destruct (outcome m) as [h|a]; [|by apply Hf].
  exists [], []. repeat split; [constructor | by left].
Qed.

Lemma Cli_selectEngine_class o base cls cfg :
  Cli.selectEngine o base = Some (cls, cfg) -> cls <> NBAStar.
Proof. unfold Cli.selectEngine. repeat case_match; intros [= <- <-]; done. Qed.

(** X10.  Every run of Cli.js, however it ends, has one shape: log
    lines, the read of the index file or location requests, the fresh
    graph; then either nothing more, or the construction of the engine
    the [switch] selects, never NBA-star, followed at once by one [findPath]
    on it -- [loadTileQuadTree] is never called -- and then at most one
    console line, whose single argument is an array. *)
Theorem Cli_protocol (E : Env) (argv : Cli.Args) :
  CliShape (Cli.selectEngine (Cli.parse argv) (tilesBase (Cli.arg_tiles argv)))
           (trace (Cli.run E argv)).
Proof.
  unfold Cli.run.
  change (Cli.tiles (Cli.parse argv)) with (Cli.arg_tiles argv).
  repeat (apply CliShape_bind;
          [run_steps; reflexivity | intros ? ?];
          try match goal with
              | |- CliShape _ (trace (let '(_, _) := ?x in _)) => destruct x
              end).
  destruct (Cli.selectEngine _ _) as [[cls cfg]|] eqn:Hsel.
  2: { exists [], []. repeat split; [constructor | by left]. }
  apply CliShape_bind; [run_steps; reflexivity | intros _ _].
  rewrite !trace_bind. cbn [trace outcome fst snd emit app].
  exists []. eexists. split; [reflexivity|]. split; [constructor|].
  right. exists cls, cfg. do 3 eexists.
  split; [done|]. split; [by eapply Cli_selectEngine_class|].
  split; [reflexivity|].
  destruct (engine_findPath E cls cfg None _ _) as [e|path]; cbn; [by left|].
  destruct (Cli.describePath E path) as [e|lines] eqn:Hd; cbn; [by left|].
  apply Cli_describePath_spec in Hd as (elems & props & l & _ & -> & _). right. eauto.
Qed.

(** ** process.exit() *)

Lemma noExit_bind {A B} (m : M A) (f : A -> M B) :
  noExit m -> (forall a, outcome m = inr a -> noExit (f a)) -> noExit (m ≫= f).
Proof.
  unfold noExit. intros Hm Hf. rewrite outcome_bind.
  destruct (outcome m) as [h|a]; [congruence | by apply Hf].
Qed.

Lemma noExit_lift {A} (r : result A) : noExit (lift r).
Proof. by destruct r. Qed.

Lemma noExit_emit (e : event) : noExit (emit e).
Proof. done. Qed.

Ltac noexit_step :=
  match goal with
  | |- noExit (mbind _ _) => apply noExit_bind; [| intros ? ?]
  | |- noExit (lift _) => apply noExit_lift
  | |- noExit (emit _) => apply noExit_emit
  | |- noExit (mret _) => unfold noExit; cbn; discriminate
  | |- noExit (throw _) => unfold noExit; cbn; discriminate
  | |- noExit (let '(_, _) := ?x in _) => destruct x
  | |- noExit (if ?b then _ else _) => destruct b eqn:?
  | |- noExit (match ?x with _ => _ end) => destruct x eqn:?
  end.

Lemma noExit_withCoordinates E X : noExit (withCoordinates E X).
Proof. unfold withCoordinates. repeat noexit_step. Qed.

Lemma noExit_fetchLocations E u1 u2 : noExit (fetchLocations E u1 u2).
Proof. unfold fetchLocations, fetchBody. repeat noexit_step. Qed.

Lemma noExit_TilePlanner_report E v : noExit (TilePlanner.report E v).
Proof. unfold TilePlanner.report. repeat noexit_step. Qed.

(** X11.  TilePlanner.js ends in [process.exit()] for one reason only:
    the [--tiles] value is not a valid HTTP URL.  Every other failure
    (a request, a record without geometry, the engine, an unknown
    algorithm name, a malformed result) surfaces as an uncaught
    exception. *)
Theorem TilePlanner_exits_only_on_invalid_url (E : Env) (argv : TilePlanner.Args) :
  outcome (TilePlanner.run E argv) = inl Exit ->
  Utils_isValidHttpUrl E (TilePlanner.arg_tiles argv) = false.
Proof.
  destruct (Utils_isValidHttpUrl E (TilePlanner.arg_tiles argv)) eqn:Hvalid; [|done].
  intros Hexit. exfalso. revert Hexit. change (noExit (TilePlanner.run E argv)).
  unfold TilePlanner.run.
  change (TilePlanner.tiles (TilePlanner.parse argv)) with (TilePlanner.arg_tiles argv).
  rewrite Hvalid.
  repeat first [ apply noExit_withCoordinates | apply noExit_fetchLocations
               | apply noExit_TilePlanner_report | noexit_step ].
Qed.

Lemma TilePlanner_exits_only_on_invalid_url_witness :
  Utils_isValidHttpUrl (sampleEnv (inr VNull))
    (TilePlanner.arg_tiles (sampleTilePlannerArgs "ftp://tiles.example" None false))
  = false.
Proof.
  apply (TilePlanner_exits_only_on_invalid_url (sampleEnv (inr VNull))
           (sampleTilePlannerArgs "ftp://tiles.example" None false)).
  reflexivity.
Defined.

Lemma Cli_resolve_exit E o base :
  outcome (Cli.resolve E o base) = inl Exit ->
  exists file err,
    Cli.index o = Some file /\ file <> EmptyString /\
    last (trace (Cli.resolve E o base)) = Some (ELog Error (LogExn err)).
Proof.
  assert (noExit (Cli.resolveRemote E o base)) as Hremote.
  { unfold Cli.resolveRemote. repeat first [apply noExit_fetchLocations | noexit_step]. }
  unfold Cli.resolve. destruct (Cli.index o) as [[|c file]|]; [done| |done].
  intros H. exists (String c file).
  unfold Cli.resolveLocal in *. rewrite outcome_bind in H. cbn [outcome emit snd] in H.
  rewrite trace_bind. cbn [trace outcome emit fst snd].
  set (body := emit (EReadFile _) ≫= _) in *.
  destruct body as [t [[|e]|a]] eqn:Hbody; cbn in H |- *.
  - exfalso. assert (noExit body) as Hn; [|by rewrite Hbody in Hn].
    unfold body. repeat noexit_step.
  - exists e. split; [done|]. split; [done|].
    change (ELog Debug (LogText "Resolving locations from local index file")
            :: t ++ [ELog Error (LogExn e)])
      with ((ELog Debug (LogText "Resolving locations from local index file") :: t)
            ++ [ELog Error (LogExn e)]).
    by rewrite last_snoc.
  - done.
Qed.

(** X12.  Cli.js ends in [process.exit()] for three reasons only: the
    [--tiles] value is not a valid HTTP URL; the index file could not be
    loaded, and then the last thing the run did was to log the error
    caught; or the algorithm name selects no engine. *)
Theorem Cli_exit_causes (E : Env) (argv : Cli.Args) :
  outcome (Cli.run E argv) = inl Exit ->
  Utils_isValidHttpUrl E (Cli.arg_tiles argv) = false \/
  (viaIndex argv = true /\
   exists err, last (trace (Cli.run E argv)) = Some (ELog Error (LogExn err))) \/
  Cli.selectEngine (Cli.parse argv) (tilesBase (Cli.arg_tiles argv)) = None.
Proof.
  destruct (Utils_isValidHttpUrl E (Cli.arg_tiles argv)) eqn:Hvalid; [|by left].
  intros Hexit. right. revert Hexit. unfold Cli.run.
  change (Cli.tiles (Cli.parse argv)) with (Cli.arg_tiles argv).
  rewrite Hvalid. rewrite !outcome_bind, !trace_bind.
  cbn [outcome trace mret M_ret fst snd app].
  destruct (outcome (Cli.resolve E _ _)) as [h|[F T]] eqn:Hres.
  - intros [= ->]. left. apply Cli_resolve_exit in Hres as (file & err & Hidx & Hne & Hlast).
    split.
    + unfold viaIndex. cbn [Cli.parse Cli.index] in Hidx. rewrite Hidx.
      by destruct file.
    + exists err. by rewrite app_nil_r.
  - destruct (Cli.selectEngine _ _) as [[cls cfg]|] eqn:Hsel; [|by right].
    intros Hexit. exfalso. revert Hexit.
    match goal with |- outcome ?m = _ -> False => change (noExit m) end.
    repeat first [ apply noExit_withCoordinates | noexit_step ].
Qed.

Lemma Cli_exit_causes_witness :
  Utils_isValidHttpUrl (sampleEnv (inr samplePathArray))
    (Cli.arg_tiles (sampleCliArgs "A" None None)) = false \/
  (viaIndex (sampleCliArgs "A" None None) = true /\
   exists err, last (trace (Cli.run (sampleEnv (inr samplePathArray))
                              (sampleCliArgs "A" None None)))
               = Some (ELog Error (LogExn err))) \/
  Cli.selectEngine (Cli.parse (sampleCliArgs "A" None None))
    (tilesBase (Cli.arg_tiles (sampleCliArgs "A" None None))) = None.
Proof.
  apply (Cli_exit_causes (sampleEnv (inr samplePathArray)) (sampleCliArgs "A" None None)).
  vm_compute. reflexivity.
Defined.

(** ** Runs that complete *)

Lemma completes_bind {A} (P : list event -> Prop) (m : M A) (f : A -> M unit) :
  (forall pre t, P t -> P (pre ++ t)) ->
  (forall a, outcome m = inr a -> outcome (f a) = inr tt -> P (trace (f a))) ->
  outcome (m ≫= f) = inr tt -> P (trace (m ≫= f)).
Proof.
  intros Hpre Hf. rewrite outcome_bind, trace_bind.
  destruct (outcome m) as [h|a]; [done|]. intros H. by apply Hpre, Hf.
Qed.

Ltac completes_step Hpre :=
  match goal with
  | |- outcome (mbind _ (emit (EFindPath _ _ _ _))) = inr tt -> _ => idtac
  | |- outcome (mbind _ _) = inr tt -> _ => apply completes_bind; [exact Hpre | intros ? ?]
  | |- outcome (let '(_, _) := ?x in _) = inr tt -> _ => destruct x
  | |- outcome (match ?x with _ => _ end) = inr tt -> _ => destruct x as [[? ?]|] eqn:?
  end.

(** X13.  When TilePlanner.js completes, its run ends with the query put
    to the engine followed by exactly the lines for the engine's answer
    to that query: the no-path line when the answer is falsy, otherwise
    the numbered path, the [LINESTRING] and the answer's own
    [metadata], in that order and with nothing after them. *)
Theorem TilePlanner_completion (E : Env) (argv : TilePlanner.Args) :
  outcome (TilePlanner.run E argv) = inr tt ->
  TilePlannerCompleted E (TilePlanner.arg_threshold argv) (trace (TilePlanner.run E argv)).
Proof.
  assert (forall pre t, TilePlannerCompleted E (TilePlanner.arg_threshold argv) t ->
                        TilePlannerCompleted E (TilePlanner.arg_threshold argv) (pre ++ t))
    as Hpre.
  { intros pre t (p & cls & cfg & F & T & sp & Hsp & H).
    exists (pre ++ p), cls, cfg, F, T, sp. split; [done|].
    destruct H as [[Ht ->]|(pa & li & md & Ht & Hd & Hmd & ->)]; rewrite app_assoc; eauto 10. }
  unfold TilePlanner.run.
  change (TilePlanner.threshold (TilePlanner.parse argv)) with (TilePlanner.arg_threshold argv).
  repeat completes_step Hpre; try done.
  rewrite !outcome_bind, !trace_bind. cbn [outcome trace emit fst snd app].
  match goal with
  | |- context [engine_findPath E ?c ?g ?q ?F ?T] =>
      destruct (engine_findPath E c g q F T) as [err|sp] eqn:Hfind; cbn; [done|];
      destruct (TilePlanner_report_cases E sp)
        as [[Ht Hr]|[(err & _ & _ & Hr)|(p & l & md & Ht & Hd & Hmd & Hr)]];
        rewrite Hr; cbn; [intros _| done |intros _];
        exists [], c, g, F, T, sp; (split; [done|])
  end.
  - by left.
  - right. by exists p, l, md.
Qed.

Lemma TilePlanner_completion_witness :
  TilePlannerCompleted (sampleEnv (inr samplePathResult))
    (TilePlanner.arg_threshold (sampleTilePlannerArgs "http://tiles.example/" None false))
    (trace (TilePlanner.run (sampleEnv (inr samplePathResult))
              (sampleTilePlannerArgs "http://tiles.example/" None false))).
Proof.
  apply (TilePlanner_completion (sampleEnv (inr samplePathResult))
           (sampleTilePlannerArgs "http://tiles.example/" None false)).
  vm_compute. reflexivity.
Defined.

(** X14.  When Cli.js completes, the engine answered its query with an
    array, and the run ends with that query followed by one console line
    holding an array of as many entries as the answer has elements. *)
Theorem Cli_completion (E : Env) (argv : Cli.Args) :
  outcome (Cli.run E argv) = inr tt -> CliCompleted E (trace (Cli.run E argv)).
Proof.
  assert (forall pre t, CliCompleted E t -> CliCompleted E (pre ++ t)) as Hpre.
  { intros pre t (p & cls & cfg & F & T & el & pr & li & Hf & -> & Hl).
    exists (pre ++ p), cls, cfg, F, T, el, pr, li. by rewrite app_assoc. }
  unfold Cli.run. repeat completes_step Hpre; try done.
  rewrite !outcome_bind, !trace_bind. cbn [outcome trace emit fst snd app].
  match goal with
  | |- context [engine_findPath E ?c ?g ?q ?F ?T] =>
      destruct (engine_findPath E c g q F T) as [err|path] eqn:Hfind; cbn; [done|];
      destruct (Cli.describePath E path) as [err|lines] eqn:Hd; cbn; [done|];
      intros _;
      apply Cli_describePath_spec in Hd as (elems & props & l & -> & -> & Hlen & _);
      exists [], c, g, F, T, elems, props, l
  end.
  done.
Qed.

Lemma Cli_completion_witness :
  CliCompleted (sampleEnv (inr samplePathArray))
    (trace (Cli.run (sampleEnv (inr samplePathArray))
              (sampleCliArgs "A" (Some "Dijkstra") None))).
Proof.
  apply (Cli_completion (sampleEnv (inr samplePathArray))
           (sampleCliArgs "A" (Some "Dijkstra") None)).
  vm_compute. reflexivity.
Defined.

(** ** Where the locations come from *)

(** X15.  TilePlanner.js never reads a file.  Cli.js uses one source of
    locations per run: with a (non-empty) [--index] it sends no request
    to the location service, and without one it reads no file. *)
Theorem location_source (E : Env) :
  (forall argv,
     Forall (fun e => isReadFile e = false) (trace (TilePlanner.run E argv))) /\
  (forall argv,
     Forall (fun e => if viaIndex argv then isFetch e = false else isReadFile e = false)
            (trace (Cli.run E argv))).
Proof.
  split; intros argv.
  - unfold TilePlanner.run. run_steps; done.
  - unfold Cli.run. apply Forall_bind; [run_steps; by destruct (viaIndex argv)|].
    intros _ _. apply Forall_bind.
    + unfold Cli.resolve, viaIndex. cbn [Cli.parse Cli.index].
      destruct (Cli.arg_index argv) as [[|c file]|];
        [unfold Cli.resolveRemote | unfold Cli.resolveLocal | unfold Cli.resolveRemote];
        run_steps; done.
    + intros [F T] _. run_steps; by destruct (viaIndex argv).
Qed.



(** X17.  The two location requests are issued one after the other, not
    together: in either script, when the request for the origin fails,
    the request for the destination is never sent and the run dies with
    that failure; when the origin's request is answered and the
    destination's fails, the run stops there with an uncaught exception,
    before anything is decoded. *)
Theorem origin_is_requested_first (E : Env) :
  (forall argv,
     Utils_isValidHttpUrl E (TilePlanner.arg_tiles argv) = true ->
     (forall err,
        fetch E (tilesBase (TilePlanner.arg_tiles argv) +:+ "/location?id="
                 +:+ encodeURIComponent (TilePlanner.arg_from argv)) = inl err ->
        TilePlanner.run E argv
        = ([ELog Debug (LogText "Resolving locations from location API");
            EFetch (tilesBase (TilePlanner.arg_tiles argv) +:+ "/location?id="
                    +:+ encodeURIComponent (TilePlanner.arg_from argv))],
           inl (Throw err))) /\
     (forall body err,
        fetch E (tilesBase (TilePlanner.arg_tiles argv) +:+ "/location?id="
                 +:+ encodeURIComponent (TilePlanner.arg_from argv)) = inr body ->
        fetch E (tilesBase (TilePlanner.arg_tiles argv) +:+ "/location?id="
                 +:+ encodeURIComponent (TilePlanner.arg_to argv)) = inl err ->
        trace (TilePlanner.run E argv)
        = [ELog Debug (LogText "Resolving locations from location API");
           EFetch (tilesBase (TilePlanner.arg_tiles argv) +:+ "/location?id="
                   +:+ encodeURIComponent (TilePlanner.arg_from argv));
           EFetch (tilesBase (TilePlanner.arg_tiles argv) +:+ "/location?id="
                   +:+ encodeURIComponent (TilePlanner.arg_to argv))] /\
        exists e, outcome (TilePlanner.run E argv) = inl (Throw e))) /\
  (forall argv,
     Utils_isValidHttpUrl E (Cli.arg_tiles argv) = true ->
     viaIndex argv = false ->
     (forall err,
        fetch E (tilesBase (Cli.arg_tiles argv) +:+ "/location/"
                 +:+ encodeURIComponent (Cli.arg_from argv)) = inl err ->
        Cli.run E argv
        = ([ELog Debug (LogText "Resolving locations from location API");
            EFetch (tilesBase (Cli.arg_tiles argv) +:+ "/location/"
                    +:+ encodeURIComponent (Cli.arg_from argv))],
           inl (Throw err))) /\
     (forall body err,
        fetch E (tilesBase (Cli.arg_tiles argv) +:+ "/location/"
                 +:+ encodeURIComponent (Cli.arg_from argv)) = inr body ->
        fetch E (tilesBase (Cli.arg_tiles argv) +:+ "/location/"
                 +:+ encodeURIComponent (Cli.arg_to argv)) = inl err ->
        trace (Cli.run E argv)
        = [ELog Debug (LogText "Resolving locations from location API");
           EFetch (tilesBase (Cli.arg_tiles argv) +:+ "/location/"
                   +:+ encodeURIComponent (Cli.arg_from argv));
           EFetch (tilesBase (Cli.arg_tiles argv) +:+ "/location/"
                   +:+ encodeURIComponent (Cli.arg_to argv))] /\
        exists e, outcome (Cli.run E argv) = inl (Throw e))).
Proof.
  split.
  - intros argv Hvalid. split.
    + intros err H1. unfold TilePlanner.run, fetchLocations, fetchBody.
      cbn [TilePlanner.parse TilePlanner.tiles TilePlanner.from TilePlanner.to].
      by rewrite Hvalid, H1.
    + intros body err H1 H2. unfold TilePlanner.run, fetchLocations, fetchBody.
      cbn [TilePlanner.parse TilePlanner.tiles TilePlanner.from TilePlanner.to].
      rewrite Hvalid, H1, H2. split; [reflexivity | by exists err].
  - intros argv Hvalid Hidx.
    assert (Cli.resolve E (Cli.parse argv) (tilesBase (Cli.arg_tiles argv))
            = Cli.resolveRemote E (Cli.parse argv) (tilesBase (Cli.arg_tiles argv)))
      as Hres.
    { unfold Cli.resolve, viaIndex in *. cbn [Cli.parse Cli.index].
      by destruct (Cli.arg_index argv) as [[|c file]|]. }
    split.
    + intros err H1. unfold Cli.run.
      change (Cli.tiles (Cli.parse argv)) with (Cli.arg_tiles argv).
      rewrite Hvalid, Hres. unfold Cli.resolveRemote, fetchLocations, fetchBody.
      cbn [Cli.parse Cli.from Cli.to]. by rewrite H1.
    + intros body err H1 H2. unfold Cli.run.
      change (Cli.tiles (Cli.parse argv)) with (Cli.arg_tiles argv).
      rewrite Hvalid, Hres. unfold Cli.resolveRemote, fetchLocations, fetchBody.
      cbn [Cli.parse Cli.from Cli.to]. rewrite H1, H2.
      split; [reflexivity | by exists err].
Qed.

Lemma origin_is_requested_first_witness :
  TilePlanner.run (unreachableEnv (inr VNull))
    (sampleTilePlannerArgs "http://tiles.example/" None false)
  = ([ELog Debug (LogText "Resolving locations from location API");
      EFetch "http://tiles.example/location?id=A"],
     inl (Throw (ExternalError "fetch" "ECONNREFUSED"))) /\
  Cli.run (unreachableEnv (inr VNull)) (sampleCliArgs "A" (Some "Dijkstra") None)
  = ([ELog Debug (LogText "Resolving locations from location API");
      EFetch "http://tiles.example/location/A"],
     inl (Throw (ExternalError "fetch" "ECONNREFUSED"))).
Proof.
  destruct (origin_is_requested_first (unreachableEnv (inr VNull))) as [HT HC].
  split.
  - apply (HT (sampleTilePlannerArgs "http://tiles.example/" None false)); reflexivity.
  - apply (HC (sampleCliArgs "A" (Some "Dijkstra") None)); reflexivity.
Defined.

(** ** An algorithm name the switch does not know *)

Lemma throws_bind {A B} (P : exn -> Prop) (m : M A) (f : A -> M B) :
  noExit m ->
  Forall (fun ev => ev <> ENewNetworkGraph) (trace m) ->
  (forall a, outcome m = inr a ->
     exists e, outcome (f a) = inl (Throw e) /\
               (ENewNetworkGraph ∈ trace (f a) -> P e)) ->
  exists e, outcome (m ≫= f) = inl (Throw e) /\
            (ENewNetworkGraph ∈ trace (m ≫= f) -> P e).
Proof.
  intros Hn Hm Hf. rewrite outcome_bind, trace_bind.
  destruct (outcome m) as [[|e]|a] eqn:Ho.
  - by destruct Hn.
  - exists e. split; [done|]. rewrite app_nil_r. intros Hin.
    by destruct (proj1 (Forall_forall _ _) Hm _ Hin).
  - destruct (Hf a eq_refl) as (e & He & HP). exists e. split; [done|].
    intros Hin. apply elem_of_app in Hin as [Hin|Hin]; [|by apply HP].
    by destruct (proj1 (Forall_forall _ _) Hm _ Hin).
Qed.

(** X18.  With a valid URL and an algorithm name that is none of
    Dijkstra, A* and NBA*, TilePlanner.js always dies with an uncaught
    exception: it neither completes nor exits.  If the locations were
    resolved (the graph was created), the exception is the [TypeError]
    of calling [loadTileQuadTree] on [null]; the name itself is never
    rejected. *)
Theorem TilePlanner_unknown_algorithm (E : Env) (argv : TilePlanner.Args) (name : string) :
  Utils_isValidHttpUrl E (TilePlanner.arg_tiles argv) = true ->
  TilePlanner.arg_algorithm argv = Some name ->
  name <> "Dijkstra" -> name <> "A*" -> name <> "NBA*" ->
  exists e,
    outcome (TilePlanner.run E argv) = inl (Throw e) /\
    (ENewNetworkGraph ∈ trace (TilePlanner.run E argv) ->
     e = TypeError "Cannot read properties of null (reading 'loadTileQuadTree')").
Proof.
  intros Hvalid Hname H1 H2 H3. unfold TilePlanner.run.
  rewrite (TilePlanner_selectEngine_unknown (TilePlanner.parse argv));
    [|cbn; by rewrite Hname..].
  change (TilePlanner.tiles (TilePlanner.parse argv)) with (TilePlanner.arg_tiles argv).
  rewrite Hvalid.
  repeat match goal with
         | |- exists e, outcome (mbind _ (emit ENewNetworkGraph)) = _ /\ _ => fail 1
         | |- exists e, outcome (mbind _ _) = _ /\ _ =>
             apply throws_bind;
             [ repeat first [ apply noExit_withCoordinates | apply noExit_fetchLocations
                            | noexit_step ]
             | run_steps; discriminate
             | intros ? ? ]
         | |- exists e, outcome (let '(_, _) := ?x in _) = _ /\ _ => destruct x
         end.
  eexists. split; reflexivity.
Qed.

Lemma TilePlanner_unknown_algorithm_witness :
  exists e,
    outcome (TilePlanner.run (sampleEnv (inr VNull))
               (sampleTilePlannerArgs "http://tiles.example/" (Some "Bellman-Ford") false))
    = inl (Throw e) /\
    (ENewNetworkGraph
       ∈ trace (TilePlanner.run (sampleEnv (inr VNull))
                  (sampleTilePlannerArgs "http://tiles.example/" (Some "Bellman-Ford") false)) ->
     e = TypeError "Cannot read properties of null (reading 'loadTileQuadTree')").
Proof.
  apply (TilePlanner_unknown_algorithm (sampleEnv (inr VNull))
           (sampleTilePlannerArgs "http://tiles.example/" (Some "Bellman-Ford") false)
           "Bellman-Ford");
    [reflexivity | reflexivity | discriminate..].
Defined.

(** ** The heuristic handed to the engines *)

(** X19.  The heuristic an engine is constructed with depends on the
    script.  TilePlanner.js gives A* and NBA* the member
    [haversineDistance] of [Utils]; Cli.js gives its A* the member
    spelled [harvesineDistance], so no engine of Cli.js ever receives
    [Utils.haversineDistance].  Dijkstra gets no heuristic in either. *)
Theorem heuristic_injected (E : Env) :
  (forall argv,
     Forall (onNew (fun cls cfg =>
               cfg_heuristic cfg
               = match cls with
                 | Dijkstra => None
                 | _ => Some (FnUtils "haversineDistance")
                 end))
            (trace (TilePlanner.run E argv))) /\
  (forall argv,
     Forall (onNew (fun cls cfg =>
               cfg_heuristic cfg
               = match cls with
                 | Dijkstra => None
                 | _ => Some (FnUtils "harvesineDistance")
                 end /\
               cfg_heuristic cfg <> Some (FnUtils "haversineDistance")))
            (trace (Cli.run E argv))).
Proof.
  split; intros argv.
  - unfold TilePlanner.run. run_steps; try exact I. cbn.
    match goal with
    | H : TilePlanner.selectEngine _ _ = Some _ |- _ =>
        revert H; unfold TilePlanner.selectEngine;
        repeat (destruct (String.eqb _ _); [intros [= <- <-]; reflexivity|]);
        discriminate
    end.
  - unfold Cli.run. run_steps; try exact I. cbn.
    match goal with
    | H : Cli.selectEngine _ _ = Some _ |- _ =>
        revert H; unfold Cli.selectEngine;
        repeat (destruct (String.eqb _ _);
                [intros [= <- <-]; split; [reflexivity | discriminate]|]);
        discriminate
    end.
Qed.
